(** * bundrop: one file served over HTTP under a random path

    A shallow embedding of [src/index.ts]: the per-client request ledger
    ([clientMap], [logRequest]), the request handler handed to [Bun.serve]
    ([fetch]), the start-up code that fixes the served file, and the
    discovery phase of the CloudFlare tunnel ([runCloudFlaredTunnel]).

    Strings are sequences of code units below 256: header values are byte
    strings, and paths and the output of the tunnel process are taken as
    such; a JavaScript [number] that only ever holds a natural number (a size, a
    counter, a status) is an [N]. *)

From Stdlib Require Import NArith ZArith Ascii String DecimalString DecimalN Lia List.
From stdpp Require Import base gmap strings list.

Local Open Scope N_scope.

(* stdpp stops [simpl] on string append; the proofs below compute with it. *)
#[local] Arguments String.append !s1 s2 : simpl nomatch.

(** ** The pieces of the JavaScript runtime the program calls *)

Module JS.

(** The double quote, which a string literal cannot hold directly. *)
Definition dq : string := String (ascii_of_nat 34) EmptyString.

Definition is_empty (s : string) : bool :=
  match s with EmptyString => true | String _ _ => false end.

(** [x || d] on a possibly-undefined string: [undefined], [null] and the
    empty string are falsy. *)
Definition or_else (x : option string) (d : string) : string :=
  match x with
  | Some s => if is_empty s then d else s
  | None => d
  end.

(** [s.substring(from, to)] for constants [from <= to]; both ends are
    clamped to the length of [s]. *)
Definition substring (from to : nat) (s : string) : string :=
  String.substring from (to - from) s.

(** [s.slice(0, n)] for a constant [n >= 0]. *)
Definition slice0 (n : nat) (s : string) : string :=
  String.substring 0 n s.

(** [\s] on code units below 256: tab, line feed, vertical tab, form feed,
    carriage return, space and the no-break space U+00A0 (the other
    characters [\s] matches, U+1680, U+2000 to U+200A, U+2028, U+2029,
    U+202F, U+205F, U+3000 and U+FEFF, lie above 255). *)
Definition is_space (c : ascii) : bool :=
  let n := nat_of_ascii c in
  ((9 <=? n)%nat && (n <=? 13)%nat) || (n =? 32)%nat || (n =? 160)%nat.

(** [s.replace(/\s+/g, " ")]: every maximal run of white space becomes one
    space.  [in_run] tells that the previous byte was white space. *)
Fixpoint collapse_spaces (in_run : bool) (s : string) : string :=
  match s with
  | EmptyString => EmptyString
  | String c s' =>
      if is_space c
      then if in_run then collapse_spaces true s'
           else String " "%char (collapse_spaces true s')
      else String c (collapse_spaces false s')
  end.

(** [n.toString()] for a natural number below 10^21: its decimal digits. *)
Definition Number_toString (n : N) : string :=
  NilZero.string_of_uint (N.to_uint n).

Definition digit_char (d : N) : ascii :=
  ascii_of_N (48 + d).

(** [(num / den).toFixed(2)] where the quotient is computed exactly, which
    is the case for an integer divided by a power of two.  ECMAScript: let
    [n] be an integer for which [n / 100 - x] is as close to zero as
    possible, the larger one if there are two; print [n] with a point
    before its last two digits. *)
Definition toFixed2_hundredths (num den : N) : N :=
  (200 * num + den) / (2 * den).

Definition toFixed2 (num den : N) : string :=
  let n := toFixed2_hundredths num den in
  Number_toString (n / 100) +:+ "." +:+
  String (digit_char ((n mod 100) / 10)) (String (digit_char (n mod 10)) EmptyString).

(** The digits [0-9a-z] of radix 36. *)
Definition radix36_char (d : N) : ascii :=
  if d <? 10 then ascii_of_N (48 + d) else ascii_of_N (87 + d).

(** The base-36 expansion of the fraction [num / den], [num < den], digit
    by digit until the remainder is zero. *)
Fixpoint radix36_fraction (fuel : nat) (num den : N) : string :=
  match fuel with
  | O => EmptyString
  | S fuel' =>
      if num =? 0 then EmptyString
      else String (radix36_char (36 * num / den))
                  (radix36_fraction fuel' ((36 * num) mod den) den)
  end.

(** [x.toString(36)] for a double [x = num / den] in [0, 1) whose base-36
    expansion ends within the digits the runtime prints (it prints digits
    until they identify the double, so an expansion of a few digits is
    printed whole): ["0"] for zero, else ["0."] and the digits. *)
Definition Number_toString36 (num den : N) : string :=
  if num =? 0 then "0"
  else "0." +:+ radix36_fraction 60 num den.

(** [path.basename(p)] with POSIX separators: the last non-empty segment
    between slashes, the empty string if there is none.  [cur] is the
    segment being read, [last] the last complete non-empty one. *)
Fixpoint basename_from (cur last : string) (p : string) : string :=
  match p with
  | EmptyString => if is_empty cur then last else cur
  | String c p' =>
      if Ascii.eqb c "/"%char
      then basename_from EmptyString (if is_empty cur then last else cur) p'
      else basename_from (cur +:+ String c EmptyString) last p'
  end.

Definition basename (p : string) : string :=
  basename_from EmptyString EmptyString p.

End JS.

(** ** ClientLedger: [clientMap] and [logRequest] *)

Record ClientInfo := mkClientInfo {
  ip : string;
  ua : string;
  count : N
}.

(** One line written by [console.log] in [logRequest]: the address, the
    shortened user agent and the running count (the time stamp, read from the
    clock, is left out). *)
Record LogLine := mkLogLine {
  log_ip : string;
  log_ua : string;
  log_count : N
}.

(** The mutable state the handler works on: the global [clientMap] and the
    lines printed so far, oldest first. *)
Record Ledger := mkLedger {
  clientMap : gmap string ClientInfo;
  console : list LogLine
}.

Definition empty_ledger : Ledger :=
  {| clientMap := ∅; console := [] |}.

(** [`${ip}::${ua}`] *)
Definition client_key (ip0 ua0 : string) : string :=
  ip0 +:+ "::" +:+ ua0.

Definition next_info (existing : option ClientInfo) (ip0 ua0 : string) : ClientInfo :=
  match existing with
  | Some e => {| ip := e.(ip); ua := e.(ua); count := e.(count) + 1 |}
  | None => {| ip := ip0; ua := ua0; count := 1 |}
  end.

Definition logRequest (ip0 ua0 : string) (st : Ledger) : Ledger :=
  let key := client_key ip0 ua0 in
  let existing := st.(clientMap) !! key in
  let info := next_info existing ip0 ua0 in
  let shortUA := JS.collapse_spaces false (JS.slice0 60 ua0) in
  {| clientMap := <[key := info]> st.(clientMap);
     console := st.(console) ++ [ {| log_ip := ip0; log_ua := shortUA; log_count := info.(count) |} ] |}.

(** ** FileServer: start-up and the [fetch] handler *)

(** What the file system holds at a path. *)
Inductive Node :=
| File (content : list Byte.byte)
| Directory (size : N).

(** [statSync(p).size]; [None] when [statSync] throws. *)
Definition statSync_size (fs : gmap string Node) (p : string) : option N :=
  match fs !! p with
  | Some (File content) => Some (N.of_nat (length content))
  | Some (Directory size) => Some size
  | None => None
  end.

(** The globals fixed before the server starts. *)
Record Config := mkConfig {
  port : N;
  filePath : string;
  fileName : string;
  urlPath : string;
  fileSize : N
}.

Inductive Startup :=
| Exit (code : N)
| Serving (cfg : Config).

(** The code between argument parsing and [Bun.serve].  [random36] is the
    value of [Math.random().toString(36)]. *)
Definition startup (fs : gmap string Node) (port : N) (filePath random36 : string) : Startup :=
  if JS.is_empty filePath then Exit 1
  else if String.eqb filePath "help" then Exit 0
  else if String.eqb filePath "version" then Exit 0
  else
    let fileName := JS.basename filePath in
    let urlPath := JS.substring 2 7 random36 in
    match statSync_size fs filePath with
    | Some fileSize =>
        Serving {| port := port; filePath := filePath; fileName := fileName;
                   urlPath := urlPath; fileSize := fileSize |}
    | None => Exit 1
    end.

Record Request := mkRequest {
  pathname : string;               (* [new URL(req.url).pathname] *)
  requestIP : option string;       (* [server.requestIP(req)?.toString()] *)
  user_agent : option string       (* [req.headers.get("user-agent")] *)
}.

(** A response body: a lazy reference to a file ([Bun.file(path)]), read by
    the runtime when the response is sent, or a string. *)
Inductive Body :=
| BunFile (path : string)
| Text (text : string).

Record Response := mkResponse {
  status : N;
  headers : list (string * string);
  body : Body
}.

(** [new Response(body, { headers })] and [new Response(body, { status })];
    the status of a response defaults to 200. *)
Definition Response_with_headers (b : Body) (hs : list (string * string)) : Response :=
  {| status := 200; headers := hs; body := b |}.

Definition Response_with_status (b : Body) (st : N) : Response :=
  {| status := st; headers := []; body := b |}.

(** The value of a header, by name. *)
Fixpoint header (name : string) (hs : list (string * string)) : option string :=
  match hs with
  | [] => None
  | (k, v) :: hs' => if String.eqb k name then Some v else header name hs'
  end.

(** The bytes the runtime sends for a body, given the file system at that
    moment; [None] when the file cannot be read. *)
Definition string_bytes (s : string) : list Byte.byte :=
  String.list_byte_of_string s.

Definition body_bytes (fs : gmap string Node) (b : Body) : option (list Byte.byte) :=
  match b with
  | BunFile path =>
      match fs !! path with
      | Some (File content) => Some content
      | _ => None
      end
  | Text text => Some (string_bytes text)
  end.

(** The page template, cut at its four interpolations. *)
Section Page.
Import JS.

Definition page_1 : string :=
  "
<!DOCTYPE html>
<html lang=" +:+ dq +:+
  "en" +:+ dq +:+
  ">
<head>
    <meta charset=" +:+ dq +:+
  "UTF-8" +:+ dq +:+
  ">
    <meta name=" +:+ dq +:+
  "viewport" +:+ dq +:+
  " content=" +:+ dq +:+
  "width=device-width, initial-scale=1.0" +:+ dq +:+
  ">
    <title>Download ".

Definition page_2 : string :=
  "</title>
    <style>
        * {
            margin: 0;
            padding: 0;
            box-sizing: border-box;
        }
        
        body {
            font-family: -apple-system, BlinkMacSystemFont, 'Segoe UI', Roboto, sans-serif;
            background: linear-gradient(135deg, #667eea 0%, #764ba2 100%);
            min-height: 100vh;
            display: flex;
            align-items: center;
            justify-content: center;
            padding: 20px;
        }
        
        .container {
            background: rgba(255, 255, 255, 0.95);
            backdrop-filter: blur(10px);
            border-radius: 20px;
            padding: 40px;
            box-shadow: 0 20px 40px rgba(0, 0, 0, 0.1);
            text-align: center;
            max-width: 500px;
            width: 100%;
        }
        
        .file-icon {
            width: 80px;
            height: 80px;
            background: linear-gradient(135deg, #4facfe 0%, #00f2fe 100%);
            border-radius: 20px;
            display: flex;
            align-items: center;
            justify-content: center;
            margin: 0 auto 30px;
            font-size: 32px;
            color: white;
        }
        
        .file-name {
            font-size: 24px;
            font-weight: 600;
            color: #2d3748;
            margin-bottom: 10px;
            word-break: break-all;
        }
        
        .file-size {
            color: #718096;
            font-size: 16px;
            margin-bottom: 30px;
        }
        
        .download-btn {
            background: linear-gradient(135deg, #667eea 0%, #764ba2 100%);
            color: white;
            border: none;
            padding: 16px 32px;
            border-radius: 12px;
            font-size: 18px;
            font-weight: 600;
            cursor: pointer;
            text-decoration: none;
            display: inline-block;
            transition: transform 0.2s, box-shadow 0.2s;
            margin-bottom: 30px;
        }
        
        .download-btn:hover {
            transform: translateY(-2px);
            box-shadow: 0 10px 25px rgba(102, 126, 234, 0.3);
        }
        
        .footer {
            color: #a0aec0;
            font-size: 14px;
            margin-top: 20px;
        }
        
        .footer a {
            color: #667eea;
            text-decoration: none;
            font-weight: 500;
        }
        
        .footer a:hover {
            text-decoration: underline;
        }
    </style>
</head>
<body>
    <div class=" +:+ dq +:+
  "container" +:+ dq +:+
  ">
        <div class=" +:+ dq +:+
  "file-icon" +:+ dq +:+
  ">📁</div>
        <div class=" +:+ dq +:+
  "file-name" +:+ dq +:+
  ">".

Definition page_3 : string :=
  "</div>
        <div class=" +:+ dq +:+
  "file-size" +:+ dq +:+
  ">".

Definition page_4 : string :=
  " MB</div>
        <a href=" +:+ dq +:+
  "/download/".

Definition page_5 : string :=
  EmptyString +:+ dq +:+
  " class=" +:+ dq +:+
  "download-btn" +:+ dq +:+
  ">Download File</a>
        <div class=" +:+ dq +:+
  "footer" +:+ dq +:+
  ">
            Powered by <a href=" +:+ dq +:+
  "https://github.com/jamonholmgren/bundrop" +:+ dq +:+
  " target=" +:+ dq +:+
  "_blank" +:+ dq +:+
  ">bundrop</a>
        </div>
    </div>
</body>
</html>".

Definition page (fileName fileSizeMB urlPath : string) : string :=
  page_1 +:+ fileName +:+ page_2 +:+ fileName +:+ page_3 +:+
  fileSizeMB +:+ page_4 +:+ urlPath +:+ page_5.
End Page.

Definition not_found_text : string :=
  "Hi there! Looks like you landed on the main page.
To get your file, just make sure to use the special link we gave you.
".

Definition download_response (cfg : Config) : Response :=
  Response_with_headers (BunFile cfg.(filePath))
    [ ("Content-Type", "application/octet-stream");
      ("Content-Disposition",
        "attachment; filename=" +:+ JS.dq +:+ cfg.(fileName) +:+ JS.dq);
      ("Content-Length", JS.Number_toString cfg.(fileSize)) ].

Definition info_response (cfg : Config) : Response :=
  let fileSizeMB := JS.toFixed2 cfg.(fileSize) (1024 * 1024) in
  let html := page cfg.(fileName) fileSizeMB cfg.(urlPath) in
  Response_with_headers (Text html) [ ("Content-Type", "text/html") ].

Definition not_found_response : Response :=
  Response_with_status (Text not_found_text) 404.

(** The handler given to [Bun.serve]: log the client, then route. *)
Definition fetch (cfg : Config) (req : Request) (st : Ledger) : Response * Ledger :=
  let ip0 := JS.or_else req.(requestIP) "unknown" in
  let ua0 := JS.or_else req.(user_agent) "unknown" in
  let st' := logRequest ip0 ua0 st in
  if String.eqb req.(pathname) ("/download/" +:+ cfg.(urlPath)) then
    (download_response cfg, st')
  else if String.eqb req.(pathname) ("/" +:+ cfg.(urlPath)) then
    (info_response cfg, st')
  else
    (not_found_response, st').

(** The server over a run of requests: responses in request order. *)
Fixpoint serve (cfg : Config) (reqs : list Request) (st : Ledger) : list Response * Ledger :=
  match reqs with
  | [] => ([], st)
  | req :: reqs' =>
      let (r, st1) := fetch cfg req st in
      let (rs, st2) := serve cfg reqs' st1 in
      (r :: rs, st2)
  end.

(** ** TunnelProcess: [runCloudFlaredTunnel] *)

(** The pattern [/https:\/\/[a-zA-Z0-9-]+\.trycloudflare\.com/]. *)

(** [[a-zA-Z0-9-]] *)
Definition is_label_char (c : ascii) : bool :=
  let n := nat_of_ascii c in
  ((97 <=? n)%nat && (n <=? 122)%nat) ||
  ((65 <=? n)%nat && (n <=? 90)%nat) ||
  ((48 <=? n)%nat && (n <=? 57)%nat) ||
  (n =? 45)%nat.

(** Match the literal [lit] at the head of [s]; the rest of [s] on success. *)
Fixpoint strip_prefix (lit s : string) : option string :=
  match lit with
  | EmptyString => Some s
  | String a lit' =>
      match s with
      | String b s' => if Ascii.eqb a b then strip_prefix lit' s' else None
      | EmptyString => None
      end
  end.

(** The greedy [[a-zA-Z0-9-]*] at the head of [s], and what follows it. *)
Fixpoint span_label (s : string) : string * string :=
  match s with
  | String c s' =>
      if is_label_char c
      then let (lab, rest) := span_label s' in (String c lab, rest)
      else (EmptyString, s)
  | EmptyString => (EmptyString, EmptyString)
  end.

Definition url_scheme : string := "https://".
Definition url_domain : string := ".trycloudflare.com".

(** The pattern tried at the head of [s].  The class excludes the dot that
    must follow the label, so giving back label characters never helps and
    the greedy run is the only candidate. *)
Definition match_here (s : string) : option string :=
  match strip_prefix url_scheme s with
  | Some after_scheme =>
      let (lab, after_label) := span_label after_scheme in
      if JS.is_empty lab then None
      else match strip_prefix url_domain after_label with
           | Some _ => Some (url_scheme +:+ lab +:+ url_domain)
           | None => None
           end
  | None => None
  end.

(** [output.match(pattern)]: the match at the leftmost position that has
    one ([urlMatch[0]]), [None] for [null]. *)
Fixpoint find_url (s : string) : option string :=
  match match_here s with
  | Some u => Some u
  | None =>
      match s with
      | String _ s' => find_url s'
      | EmptyString => None
      end
  end.

Inductive Stream := Stdout | Stderr.

(** What the event loop can deliver to the callbacks set up by
    [runCloudFlaredTunnel]. *)
Inductive Event :=
| Chunk (from : Stream) (chunk : string)  (* [read()] gave [{ done: false, value }] *)
| Done (from : Stream)                    (* [read()] gave [{ done: true }] *)
| ReadError (from : Stream)               (* [read()] rejected *)
| TimerFired                              (* the [setTimeout] callback *)
| Exited (exitCode : Z).                  (* [proc.exited] resolved *)

Definition timeout_ms : N := 30000.

(** The closure state of one call: the variables [output] and [urlFound],
    the promise returned to the caller ([None] while pending, [Some None]
    once resolved with [null]), which callbacks can still run, how often
    [proc.kill()] was called, and the lines given to [console.error]
    (the lines printed only under [debug] are left out). *)
Record Tunnel := mkTunnel {
  output : string;
  urlFound : bool;
  promise : option (option string);
  stdout_reading : bool;
  stderr_reading : bool;
  timer_pending : bool;
  exit_pending : bool;
  kill_calls : nat;
  errors : list string
}.

Definition spawned : Tunnel :=
  {| output := EmptyString; urlFound := false; promise := None;
     stdout_reading := true; stderr_reading := true;
     timer_pending := true; exit_pending := true;
     kill_calls := 0; errors := [] |}.

(** [Bun.spawn] threw: the [catch] branch returns [null]. *)
Definition spawn_failed : Tunnel :=
  {| output := EmptyString; urlFound := false; promise := Some None;
     stdout_reading := false; stderr_reading := false;
     timer_pending := false; exit_pending := false;
     kill_calls := 0; errors := ["Failed to start CloudFlare tunnel"] |}.

(** [resolve(v)]: settles a pending promise, does nothing to a settled one. *)
Definition resolve (v : option string) (p : option (option string)) : option (option string) :=
  match p with
  | None => Some v
  | Some _ => p
  end.

Definition reading (from : Stream) (t : Tunnel) : bool :=
  match from with
  | Stdout => t.(stdout_reading)
  | Stderr => t.(stderr_reading)
  end.

Definition stop_reading (from : Stream) (t : Tunnel) : Tunnel :=
  {| output := t.(output); urlFound := t.(urlFound); promise := t.(promise);
     stdout_reading := match from with Stdout => false | Stderr => t.(stdout_reading) end;
     stderr_reading := match from with Stderr => false | Stdout => t.(stderr_reading) end;
     timer_pending := t.(timer_pending); exit_pending := t.(exit_pending);
     kill_calls := t.(kill_calls); errors := t.(errors) |}.

(** One turn of [readStdout] or [readStderr] on a chunk: both loops run the
    same body on the shared [output] and [urlFound]. *)
Definition on_chunk (from : Stream) (chunk : string) (t : Tunnel) : Tunnel :=
  let output' := t.(output) +:+ chunk in
  match find_url output' with
  | Some url =>
      if negb t.(urlFound) then
        stop_reading from
          {| output := output'; urlFound := true;
             promise := resolve (Some url) t.(promise);
             stdout_reading := t.(stdout_reading); stderr_reading := t.(stderr_reading);
             timer_pending := t.(timer_pending); exit_pending := t.(exit_pending);
             kill_calls := t.(kill_calls); errors := t.(errors) |}
      else
        {| output := output'; urlFound := t.(urlFound); promise := t.(promise);
           stdout_reading := t.(stdout_reading); stderr_reading := t.(stderr_reading);
           timer_pending := t.(timer_pending); exit_pending := t.(exit_pending);
           kill_calls := t.(kill_calls); errors := t.(errors) |}
  | None =>
      {| output := output'; urlFound := t.(urlFound); promise := t.(promise);
         stdout_reading := t.(stdout_reading); stderr_reading := t.(stderr_reading);
         timer_pending := t.(timer_pending); exit_pending := t.(exit_pending);
         kill_calls := t.(kill_calls); errors := t.(errors) |}
  end.

Definition on_timeout (t : Tunnel) : Tunnel :=
  if negb t.(urlFound) then
    {| output := t.(output); urlFound := t.(urlFound);
       promise := resolve None t.(promise);
       stdout_reading := t.(stdout_reading); stderr_reading := t.(stderr_reading);
       timer_pending := false; exit_pending := t.(exit_pending);
       kill_calls := S t.(kill_calls);
       errors := t.(errors) ++ ["Timeout waiting for CloudFlare tunnel URL"] |}
  else
    {| output := t.(output); urlFound := t.(urlFound); promise := t.(promise);
       stdout_reading := t.(stdout_reading); stderr_reading := t.(stderr_reading);
       timer_pending := false; exit_pending := t.(exit_pending);
       kill_calls := t.(kill_calls); errors := t.(errors) |}.

Definition on_exit (exitCode : Z) (t : Tunnel) : Tunnel :=
  if negb t.(urlFound) then
    {| output := t.(output); urlFound := t.(urlFound);
       promise := resolve None t.(promise);
       stdout_reading := t.(stdout_reading); stderr_reading := t.(stderr_reading);
       timer_pending := t.(timer_pending); exit_pending := false;
       kill_calls := t.(kill_calls);
       errors := t.(errors) ++ ["CloudFlare tunnel process exited unexpectedly"] |}
  else
    {| output := t.(output); urlFound := t.(urlFound); promise := t.(promise);
       stdout_reading := t.(stdout_reading); stderr_reading := t.(stderr_reading);
       timer_pending := t.(timer_pending); exit_pending := false;
       kill_calls := t.(kill_calls); errors := t.(errors) |}.

(** One event.  An event whose callback is gone (a reader that returned, a
    timer or an exit that already ran) changes nothing. *)
Definition step (t : Tunnel) (e : Event) : Tunnel :=
  match e with
  | Chunk from chunk => if reading from t then on_chunk from chunk t else t
  | Done from => if reading from t then stop_reading from t else t
  | ReadError from => if reading from t then stop_reading from t else t
  | TimerFired => if t.(timer_pending) then on_timeout t else t
  | Exited exitCode => if t.(exit_pending) then on_exit exitCode t else t
  end.

Definition run (t : Tunnel) (events : list Event) : Tunnel :=
  fold_left step events t.

(** The call as a whole: [spawn_ok] tells whether [Bun.spawn] returned; the
    promise of the result is what the caller awaits. *)
Definition runCloudFlaredTunnel (spawn_ok : bool) (events : list Event) : Tunnel :=
  if spawn_ok then run spawned events else spawn_failed.

(** The outcomes the design document names, for comparison with the
    [string | null] the code produces. *)
Inductive TunnelOutcome :=
| ResolvedURL (url : string)
| TimedOut
| ProcessExited (code : Z).

(** ** Vocabulary of the statements *)

(** The line feed, written apart so that statements stay on their lines. *)
Definition newline : string := String (ascii_of_nat 10) EmptyString.

(** [needle] occurs in [hay]. *)
Definition contains (needle hay : string) : Prop :=
  exists pre post, hay = pre +:+ needle +:+ post.

Fixpoint all_chars (p : ascii -> bool) (s : string) : bool :=
  match s with
  | EmptyString => true
  | String c s' => p c && all_chars p s'
  end.

(** [0-9a-zA-Z] *)
Definition is_alphanumeric (c : ascii) : bool :=
  let n := nat_of_ascii c in
  ((48 <=? n)%nat && (n <=? 57)%nat) ||
  ((97 <=? n)%nat && (n <=? 122)%nat) ||
  ((65 <=? n)%nat && (n <=? 90)%nat).

Definition is_slash (c : ascii) : bool := Ascii.eqb c "/"%char.
Definition not_slash (c : ascii) : bool := negb (is_slash c).

(** The count the ledger holds for a key, zero for a key never seen. *)
Definition hits (st : Ledger) (key : string) : N :=
  match st.(clientMap) !! key with
  | Some e => e.(count)
  | None => 0
  end.

(** The client a request is counted under. *)
Definition client_ip (req : Request) : string := JS.or_else req.(requestIP) "unknown".
Definition client_ua (req : Request) : string := JS.or_else req.(user_agent) "unknown".

(** The counts printed for the requests of a run that were made under [key],
    in request order: [lines] holds one line per request. *)
Definition counts_under (key : string) (reqs : list Request) (lines : list LogLine) : list N :=
  map (fun p => log_count (snd p))
      (List.filter
         (fun p => String.eqb (client_ip (fst p) +:+ "::" +:+ client_ua (fst p)) key)
         (combine reqs lines)).

(** A string the pattern matches from end to end. *)
Definition is_tunnel_url (u : string) : Prop :=
  exists lab, u = url_scheme +:+ lab +:+ url_domain /\
              lab <> EmptyString /\ all_chars is_label_char lab = true.

(** The text read during a run of events: the chunks of both streams, in the
    order they were read. *)
Fixpoint text_read (events : list Event) : string :=
  match events with
  | [] => EmptyString
  | Chunk _ chunk :: events' => chunk +:+ text_read events'
  | _ :: events' => text_read events'
  end.

(** The text one stream delivered during a run of events. *)
Fixpoint stream_text (from : Stream) (events : list Event) : string :=
  match events with
  | [] => EmptyString
  | Chunk Stdout chunk :: events' =>
      match from with
      | Stdout => chunk +:+ stream_text from events'
      | Stderr => stream_text from events'
      end
  | Chunk Stderr chunk :: events' =>
      match from with
      | Stdout => stream_text from events'
      | Stderr => chunk +:+ stream_text from events'
      end
  | _ :: events' => stream_text from events'
  end.

(** A run of the discovery phase before the timer fires and before the
    process exits: reads only, and none from a stream after its end or its
    error.  The two flags tell which streams are still open. *)
Fixpoint orderly (out_open err_open : bool) (events : list Event) : bool :=
  match events with
  | [] => true
  | Chunk Stdout _ :: events' => out_open && orderly out_open err_open events'
  | Chunk Stderr _ :: events' => err_open && orderly out_open err_open events'
  | Done Stdout :: events' | ReadError Stdout :: events' =>
      out_open && orderly false err_open events'
  | Done Stderr :: events' | ReadError Stderr :: events' =>
      err_open && orderly out_open false events'
  | TimerFired :: _ | Exited _ :: _ => false
  end.

(** [s] without its first [n] characters. *)
Fixpoint drop_chars (n : nat) (s : string) : string :=
  match n, s with
  | S n', String _ s' => drop_chars n' s'
  | _, _ => s
  end.

(** A colon occurs in [s].  The only colon of a match is the one of its
    scheme, which tells where a match can start. *)
Fixpoint has_colon (s : string) : bool :=
  match s with
  | EmptyString => false
  | String c s' => Ascii.eqb c ":"%char || has_colon s'
  end.

(** The last character of a string. *)
Fixpoint last_char (s : string) : option ascii :=
  match s with
  | EmptyString => None
  | String c s' =>
      match s' with
      | EmptyString => Some c
      | String _ _ => last_char s'
      end
  end.

(** What holds of the closure state after any run of events. *)
Definition tunnel_inv (t : Tunnel) : Prop :=
  (t.(promise) = None ->
     t.(urlFound) = false /\ t.(timer_pending) = true /\ t.(exit_pending) = true) /\
  (t.(timer_pending) = true -> t.(kill_calls) = 0%nat) /\
  (t.(timer_pending) = false ->
     t.(kill_calls) = 1%nat \/ (t.(urlFound) = true /\ t.(kill_calls) = 0%nat)) /\
  (forall u, t.(promise) = Some (Some u) ->
     t.(urlFound) = true /\ t.(kill_calls) = 0%nat).

(** ** A small deployment on which the statements are exercised *)

Definition sample_path : string := "/home/ann/notes.txt".

Definition sample_content : list Byte.byte := [Byte.x68; Byte.x69; Byte.x0a].

Definition sample_fs : gmap string Node := {[ sample_path := File sample_content ]}.

Definition sample_random36 : string := "0.k3x9q7w1lpf".

Definition sample_cfg : Config :=
  {| port := 8000; filePath := sample_path; fileName := "notes.txt";
     urlPath := "k3x9q"; fileSize := 3 |}.

Definition sample_download : Request :=
  {| pathname := "/download/k3x9q"; requestIP := Some "10.0.0.7"; user_agent := None |}.

Definition sample_info : Request :=
  {| pathname := "/k3x9q"; requestIP := Some "10.0.0.7"; user_agent := Some "curl/8.0" |}.

Definition sample_stray : Request :=
  {| pathname := "/favicon.ico"; requestIP := None; user_agent := Some "curl/8.0" |}.

(** One client on the three routes. *)
Definition sample_visit : list Request :=
  [ {| pathname := "/k3x9q"; requestIP := Some "10.0.0.7"; user_agent := Some "curl/8.0" |};
    {| pathname := "/download/k3x9q"; requestIP := Some "10.0.0.7";
       user_agent := Some "curl/8.0" |};
    {| pathname := "/favicon.ico"; requestIP := Some "10.0.0.7";
       user_agent := Some "curl/8.0" |} ].

(** A file of an eighth of a mebibyte. *)
Definition sample_archive_path : string := "/srv/share/archive.bin".

Definition sample_archive_fs : gmap string Node :=
  {[ sample_archive_path := File (List.repeat Byte.x00 (N.to_nat 131072)) ]}.

Definition sample_archive_cfg : Config :=
  {| port := 8000; filePath := sample_archive_path; fileName := "archive.bin";
     urlPath := "k3x9q"; fileSize := 131072 |}.

(** The URL cut between two writes on stderr, with a write on stdout read
    in between. *)
Definition sample_interleaved : list Event :=
  [ Chunk Stderr "INF https://foo-b";
    Chunk Stdout "starting up";
    Chunk Stderr "ar.trycloudflare.com |" ].

(** The same with a single letter on stdout. *)
Definition sample_spliced : list Event :=
  [ Chunk Stderr "INF https://foo-b";
    Chunk Stdout "x";
    Chunk Stderr "ar.trycloudflare.com |" ].

(** Three clients taking turns: the second differs from the first in the
    address only, the third in the user agent only. *)
Definition sample_crowd : list Request :=
  [ {| pathname := "/k3x9q"; requestIP := Some "10.0.0.7"; user_agent := Some "curl/8.0" |};
    {| pathname := "/k3x9q"; requestIP := Some "10.0.0.9"; user_agent := Some "curl/8.0" |};
    {| pathname := "/download/k3x9q"; requestIP := Some "10.0.0.7";
       user_agent := Some "curl/8.0" |};
    {| pathname := "/"; requestIP := Some "10.0.0.7"; user_agent := Some "Wget/1.21" |};
    {| pathname := "/favicon.ico"; requestIP := Some "10.0.0.7";
       user_agent := Some "curl/8.0" |};
    {| pathname := "/download/k3x9q"; requestIP := Some "10.0.0.9";
       user_agent := Some "curl/8.0" |} ].

(** The test of the design document: a tunnel URL cut between two writes. *)
Definition sample_reads : list Event :=
  [ Chunk Stderr "INF |  https://foo-b"; Done Stdout;
    Chunk Stderr "ar.trycloudflare.com  |" ].

(** What decides a promise: the event [e] met in a state whose output so far
    is [out], and the value [r] it settles the promise with. *)
Definition settles (out : string) (e : Event) (r : option string) : Prop :=
  match e with
  | Chunk _ chunk => find_url (out +:+ chunk) = r /\ exists url, r = Some url
  | TimerFired => r = None
  | Exited _ => r = None
  | Done _ | ReadError _ => False
  end.

(** [0-9a-z], the digits [toString(36)] prints. *)
Definition is_radix36_digit (c : ascii) : bool :=
  let n := nat_of_ascii c in
  ((48 <=? n)%nat && (n <=? 57)%nat) || ((97 <=? n)%nat && (n <=? 122)%nat).

(** The form of [x.toString(36)] for a double [x] in [0, 1): ["0"], or
    ["0."] and at least one digit. *)
Definition radix36_rendering (s : string) : Prop :=
  s = "0" \/
  exists digits, s = "0." +:+ digits /\ digits <> EmptyString /\
                 all_chars is_radix36_digit digits = true.

(** ** Command line: the argument loop *)

(** The four variables the loop over [args] sets.  [cli_port] is [None] for
    the default 8000 and [Some val] for [Number(val)]. *)
Record Cli := mkCli {
  cli_port : option string;
  cli_filePath : string;
  cli_debug : bool;
  cli_autoTunnel : bool
}.

(** Why the program stops while it reads its arguments: the usage lines and
    the wrong port end with exit code 1, the help text and the version with
    exit code 0. *)
Inductive CliStop := StopUsage | StopHelp | StopVersion | StopInvalidPort.

Definition exit_code (s : CliStop) : N :=
  match s with
  | StopUsage | StopInvalidPort => 1
  | StopHelp | StopVersion => 0
  end.

Definition cli_initial : Cli :=
  {| cli_port := None; cli_filePath := EmptyString;
     cli_debug := false; cli_autoTunnel := false |}.

Section CommandLine.

(** [isNaN(Number(val))], the number grammar of the runtime. *)
Variable isNaN_Number : string -> bool.

(** The [for] loop over [args]: [-p] takes the next argument with it. *)
Fixpoint parse_loop (args : list string) (c : Cli) : CliStop + Cli :=
  match args with
  | [] => inr c
  | arg :: rest =>
      if String.eqb arg "-h" || String.eqb arg "--help" then inl StopHelp
      else if String.eqb arg "-p" || String.eqb arg "--port" then
        match rest with
        | val :: rest' =>
            if JS.is_empty val || isNaN_Number val then inl StopInvalidPort
            else parse_loop rest'
                   {| cli_port := Some val; cli_filePath := c.(cli_filePath);
                      cli_debug := c.(cli_debug); cli_autoTunnel := c.(cli_autoTunnel) |}
        | [] => inl StopInvalidPort
        end
      else if String.eqb arg "-d" || String.eqb arg "--debug" then
        parse_loop rest
          {| cli_port := c.(cli_port); cli_filePath := c.(cli_filePath);
             cli_debug := true; cli_autoTunnel := c.(cli_autoTunnel) |}
      else if String.eqb arg "-t" || String.eqb arg "--tunnel" then
        parse_loop rest
          {| cli_port := c.(cli_port); cli_filePath := c.(cli_filePath);
             cli_debug := c.(cli_debug); cli_autoTunnel := true |}
      else if String.eqb arg "-v" || String.eqb arg "---version" then inl StopVersion
      else
        parse_loop rest
          {| cli_port := c.(cli_port); cli_filePath := arg;
             cli_debug := c.(cli_debug); cli_autoTunnel := c.(cli_autoTunnel) |}
  end.

(** The arguments as a whole: none at all is an error of its own. *)
Definition parse_args (args : list string) : CliStop + Cli :=
  match args with
  | [] => inl StopUsage
  | _ :: _ => parse_loop args cli_initial
  end.

End CommandLine.

(** ** Tunnel onboarding: [setupCloudFlareTunnel] and what it calls *)

(** [s.toLowerCase()] on bytes: the letters A to Z. *)
Definition lower_char (c : ascii) : ascii :=
  let n := nat_of_ascii c in
  if (65 <=? n)%nat && (n <=? 90)%nat then ascii_of_nat (n + 32) else c.

Fixpoint toLowerCase (s : string) : string :=
  match s with
  | EmptyString => EmptyString
  | String c s' => String (lower_char c) (toLowerCase s')
  end.

(** [s.startsWith(lit)] *)
Definition startsWith (s lit : string) : bool :=
  match strip_prefix lit s with
  | Some _ => true
  | None => false
  end.

(** [askCloudFlareTunnel], on the line the user typed. *)
Definition askCloudFlareTunnel (answer : string) : bool :=
  startsWith (toLowerCase answer) "y".

(** How the probe [cloudflared --version] ended. *)
Inductive Probe :=
| ProbeThrows
| ProbeExited (exitCode : Z).

Definition checkCloudFlaredInstalled (p : Probe) : bool :=
  match p with
  | ProbeExited exitCode => Z.eqb exitCode 0
  | ProbeThrows => false
  end.

(** Where [setupCloudFlareTunnel] ends: the hint about port forwarding; the
    install instructions and [process.exit(1)]; still waiting for the tunnel;
    no URL, nothing more printed; or the share link printed and the QR code
    drawn for [qr]. *)
Inductive SetupOutcome :=
| Declined
| NotInstalled
| Awaiting
| NoTunnel
| Shared (link qr : string).

(** [answer] is read only when [autoTunnel] is off; [probe], [spawn_ok] and
    [events] are what the two subprocesses do. *)
Definition setupCloudFlareTunnel
    (urlPath : string) (autoTunnel : bool)
    (answer : string) (probe : Probe) (spawn_ok : bool) (events : list Event)
    : SetupOutcome :=
  let wantsTunnel := if autoTunnel then true else askCloudFlareTunnel answer in
  if negb wantsTunnel then Declined
  else if negb (checkCloudFlaredInstalled probe) then NotInstalled
  else
    match (runCloudFlaredTunnel spawn_ok events).(promise) with
    | None => Awaiting
    | Some None => NoTunnel
    | Some (Some tunnelUrl) =>
        if JS.is_empty tunnelUrl then NoTunnel
        else Shared (tunnelUrl +:+ "/" +:+ urlPath) tunnelUrl
    end.

(** ** More vocabulary *)

(** What the loop takes an argument for. *)
Inductive ArgKind := KHelp | KPort | KDebug | KTunnel | KVersion | KPath.

Definition classify (arg : string) : ArgKind :=
  if String.eqb arg "-h" || String.eqb arg "--help" then KHelp
  else if String.eqb arg "-p" || String.eqb arg "--port" then KPort
  else if String.eqb arg "-d" || String.eqb arg "--debug" then KDebug
  else if String.eqb arg "-t" || String.eqb arg "--tunnel" then KTunnel
  else if String.eqb arg "-v" || String.eqb arg "---version" then KVersion
  else KPath.

(** The two switches, [--debug] and [--tunnel]. *)
Definition is_switch (arg : string) : bool :=
  match classify arg with
  | KDebug | KTunnel => true
  | _ => false
  end.

Definition is_path_arg (arg : string) : bool :=
  match classify arg with
  | KPath => true
  | _ => false
  end.


Definition other_stream (from : Stream) : Stream :=
  match from with
  | Stdout => Stderr
  | Stderr => Stdout
  end.

(** A stand-in for the number grammar where a statement needs one to be
    exercised: the strings of decimal digits are the numbers. *)
Definition is_decimal_digit (c : ascii) : bool :=
  let n := nat_of_ascii c in (48 <=? n)%nat && (n <=? 57)%nat.

Definition sample_isNaN (val : string) : bool :=
  negb (all_chars is_decimal_digit val).

Definition sample_dir : string := "/home/ann/photos".

Definition sample_fs_with_dir : gmap string Node :=
  {[ sample_dir := Directory 4096 ]}.

(** * Properties *)

(** ** Strings *)

Lemma append_assoc (s1 s2 s3 : string) : (s1 +:+ s2) +:+ s3 = s1 +:+ (s2 +:+ s3).
Proof. induction s1 as [|c s1 IH]; simpl; [reflexivity | now rewrite IH]. Qed.

Lemma append_nil_r (s : string) : s +:+ EmptyString = s.
Proof. induction s as [|c s IH]; simpl; [reflexivity | now rewrite IH]. Qed.

Lemma length_append (s1 s2 : string) :
  String.length (s1 +:+ s2) = (String.length s1 + String.length s2)%nat.
Proof. induction s1 as [|c s1 IH]; simpl; [reflexivity | now rewrite IH]. Qed.

Lemma contains_middle (pre needle post : string) :
  contains needle (pre +:+ needle +:+ post).
Proof. now exists pre, post. Qed.

Lemma contains_append_l (needle pre hay : string) :
  contains needle hay -> contains needle (pre +:+ hay).
Proof.
  intros (a & b & ->). exists (pre +:+ a), b. now rewrite append_assoc.
Qed.

Lemma contains_append_r (needle hay post : string) :
  contains needle hay -> contains needle (hay +:+ post).
Proof.
  intros (a & b & ->). exists a, (b +:+ post). now rewrite !append_assoc.
Qed.

Lemma append_inv_head (a x y : string) : a +:+ x = a +:+ y -> x = y.
Proof.
  induction a as [|c a IH]; simpl; intros H; [exact H|].
  injection H as H. now apply IH.
Qed.

Lemma append_inv_tail (x y s : string) : x +:+ s = y +:+ s -> x = y.
Proof.
  revert y. induction x as [|c x IH]; intros [|d y] H; simpl in H.
  - reflexivity.
  - apply (f_equal String.length) in H. simpl in H. rewrite length_append in H. lia.
  - apply (f_equal String.length) in H. simpl in H. rewrite length_append in H. lia.
  - injection H as -> H. f_equal. now apply IH.
Qed.

(** ** ClientLedger *)

(** A key names both components: keys of clients that differ in the address
    only, or in the user agent only, differ. *)
Lemma client_key_components (ip1 ua1 ip2 ua2 : string) :
  (ip1 <> ip2 /\ ua1 = ua2) \/ (ip1 = ip2 /\ ua1 <> ua2) ->
  client_key ip1 ua1 <> client_key ip2 ua2.
Proof.
  unfold client_key. intros [[Hip <-]|[<- Hua]] H.
  - apply Hip. exact (append_inv_tail _ _ _ H).
  - apply Hua. apply append_inv_head in H. exact (append_inv_head _ _ _ H).
Qed.

Lemma logRequest_hits (ip0 ua0 : string) (st : Ledger) :
  hits (logRequest ip0 ua0 st) (client_key ip0 ua0) = hits st (client_key ip0 ua0) + 1.
Proof.
  unfold hits, logRequest; simpl. rewrite lookup_insert_eq.
  destruct (clientMap st !! client_key ip0 ua0); simpl; lia.
Qed.

Lemma logRequest_hits_other (ip0 ua0 key : string) (st : Ledger) :
  key <> client_key ip0 ua0 ->
  hits (logRequest ip0 ua0 st) key = hits st key.
Proof.
  intros Hne. unfold hits, logRequest; simpl.
  now rewrite lookup_insert_ne by congruence.
Qed.

Lemma logRequest_console (ip0 ua0 : string) (st : Ledger) :
  map log_count (console (logRequest ip0 ua0 st)) =
  map log_count (console st) ++ [hits st (client_key ip0 ua0) + 1].
Proof.
  unfold logRequest, hits; simpl. rewrite map_app; simpl.
  destruct (clientMap st !! client_key ip0 ua0); simpl; repeat f_equal; lia.
Qed.

(** ** The handler, for any served file *)

Lemma download_path_is_not_info_path (token : string) :
  "/download/" +:+ token <> "/" +:+ token.
Proof.
  intros H. apply (f_equal String.length) in H.
  rewrite !length_append in H. simpl in H. lia.
Qed.

Section Handler.

Variable cfg : Config.

Lemma fetch_ledger (req : Request) (st : Ledger) :
  snd (fetch cfg req st) = logRequest (client_ip req) (client_ua req) st.
Proof.
  unfold fetch, client_ip, client_ua.
  destruct (String.eqb _ _); [reflexivity|].
  destruct (String.eqb _ _); reflexivity.
Qed.

Lemma serve_cons (req : Request) (reqs : list Request) (st : Ledger) :
  snd (serve cfg (req :: reqs) st) = snd (serve cfg reqs (snd (fetch cfg req st))).
Proof.
  simpl. destruct (fetch cfg req st) as [r st1]; simpl.
  destruct (serve cfg reqs st1) as [rs st2]; reflexivity.
Qed.

(** Requests of one client, served from any ledger: the counts printed go up
    by one from the count the ledger held. *)
Lemma serve_same_client (ip0 ua0 : string) (reqs : list Request) :
  Forall (fun req => client_ip req = ip0 /\ client_ua req = ua0) reqs ->
  forall st,
    map log_count (console (snd (serve cfg reqs st))) =
    map log_count (console st) ++
    map (fun i => hits st (client_key ip0 ua0) + N.of_nat i) (seq 1 (length reqs))
    /\ hits (snd (serve cfg reqs st)) (client_key ip0 ua0) =
       hits st (client_key ip0 ua0) + N.of_nat (length reqs).
Proof.
  induction 1 as [|req reqs [Hip Hua] _ IH]; intros st.
  - simpl. rewrite app_nil_r. split; [reflexivity | lia].
  - rewrite serve_cons, fetch_ledger, Hip, Hua.
    destruct (IH (logRequest ip0 ua0 st)) as [IHc IHh].
    rewrite IHc, IHh, logRequest_console, logRequest_hits. split.
    + rewrite <- app_assoc. f_equal. cbn [length seq map app]. f_equal; try lia.
      rewrite <- (seq_shift (length reqs) 1), map_map. apply map_ext. intros i. lia.
    + cbn [length]. lia.
Qed.

(** X1. In any run every request adds one to the count of its own key and
    to no other, so the count held for a key is the number of requests made
    under it: no hit is lost and none is counted twice. *)
Lemma serve_hits (reqs : list Request) (st : Ledger) (key : string) :
  hits (snd (serve cfg reqs st)) key =
  hits st key +
  N.of_nat (length (List.filter
                      (fun req => String.eqb (client_key (client_ip req) (client_ua req)) key)
                      reqs)).
Proof.
  revert st. induction reqs as [|req reqs IH]; intros st.
  - simpl. lia.
  - rewrite serve_cons, fetch_ledger, IH. cbn [List.filter].
    destruct (String.eqb_spec (client_key (client_ip req) (client_ua req)) key) as [<-|Hne].
    + rewrite logRequest_hits. cbn [length]. lia.
    + rewrite logRequest_hits_other by congruence. reflexivity.
Qed.

(** In any run, from any ledger, the lines added are one per request, and the
    counts printed for the requests made under one key go up by one from the
    count the ledger held for it, whatever the other clients do in between. *)
Lemma serve_counts_by_key (key : string) (reqs : list Request) (st : Ledger) :
  exists lines,
    console (snd (serve cfg reqs st)) = console st ++ lines /\
    length lines = length reqs /\
    counts_under key reqs lines =
    map (fun i => hits st key + N.of_nat i)
        (seq 1 (length (List.filter
                          (fun req => String.eqb (client_ip req +:+ "::" +:+ client_ua req) key)
                          reqs))) /\
    hits (snd (serve cfg reqs st)) key =
    hits st key +
    N.of_nat (length (List.filter
                        (fun req => String.eqb (client_ip req +:+ "::" +:+ client_ua req) key)
                        reqs)).
Proof.
  revert st. induction reqs as [|req reqs IH]; intros st.
  - exists []. simpl. rewrite app_nil_r. repeat split. lia.
  - rewrite serve_cons, fetch_ledger.
    destruct (IH (logRequest (client_ip req) (client_ua req) st))
      as (lines & Hc & Hl & Hk & Hh).
    rewrite Hh. clear Hh.
    set (line := {| log_ip := client_ip req;
                    log_ua := JS.collapse_spaces false (JS.slice0 60 (client_ua req));
                    log_count := (next_info (clientMap st !! client_key (client_ip req) (client_ua req))
                                    (client_ip req) (client_ua req)).(count) |}).
    assert (Hline : log_count line = hits st (client_key (client_ip req) (client_ua req)) + 1).
    { unfold line, hits. cbn [log_count].
      destruct (clientMap st !! _); cbn [next_info count]; lia. }
    exists (line :: lines). split; [|split].
    + rewrite Hc. unfold logRequest. cbn [console]. now rewrite <- app_assoc.
    + cbn [length]. now rewrite Hl.
    + unfold counts_under in *. cbn [combine List.filter fst snd].
      change (client_ip req +:+ "::" +:+ client_ua req)
        with (client_key (client_ip req) (client_ua req)) in *.
      destruct (String.eqb_spec (client_key (client_ip req) (client_ua req)) key) as [<-|Hne].
      * cbn [map length seq snd]. rewrite Hk, Hline, logRequest_hits. split; [|lia]. f_equal.
        match goal with |- context [seq 2 ?n] => rewrite <- (seq_shift n 1) end.
        rewrite map_map. apply map_ext. intros i. lia.
      * rewrite Hk, logRequest_hits_other by congruence. split; reflexivity.
Qed.

Lemma fetch_download (req : Request) (st : Ledger) :
  req.(pathname) = "/download/" +:+ cfg.(urlPath) ->
  fst (fetch cfg req st) = download_response cfg.
Proof.
  intros H. unfold fetch. rewrite H, String.eqb_refl. reflexivity.
Qed.

Lemma fetch_info (req : Request) (st : Ledger) :
  req.(pathname) = "/" +:+ cfg.(urlPath) ->
  fst (fetch cfg req st) = info_response cfg.
Proof.
  intros H. unfold fetch. rewrite H.
  destruct (String.eqb_spec ("/" +:+ urlPath cfg) ("/download/" +:+ urlPath cfg)) as [E|_].
  - symmetry in E. now apply download_path_is_not_info_path in E.
  - rewrite String.eqb_refl. reflexivity.
Qed.

Lemma fetch_elsewhere (req : Request) (st : Ledger) :
  req.(pathname) <> "/download/" +:+ cfg.(urlPath) ->
  req.(pathname) <> "/" +:+ cfg.(urlPath) ->
  fst (fetch cfg req st) = not_found_response.
Proof.
  intros H1 H2. unfold fetch.
  destruct (String.eqb_spec (pathname req) ("/download/" +:+ urlPath cfg)); [contradiction|].
  destruct (String.eqb_spec (pathname req) ("/" +:+ urlPath cfg)); [contradiction|].
  reflexivity.
Qed.

(** No answer of the handler carries a status other than 200 and 404. *)
Lemma fetch_status (req : Request) (st : Ledger) :
  (fst (fetch cfg req st)).(status) = 200 \/ (fst (fetch cfg req st)).(status) = 404.
Proof.
  unfold fetch. destruct (String.eqb _ _); [now left|].
  destruct (String.eqb _ _); [now left | now right].
Qed.

End Handler.

(** ** ClientLedger: what every request records *)

(** C4. Every request, whatever its path, records exactly one hit under the
    key [address::user agent], each component read as "unknown" when absent
    or empty: the count under that key goes up by one, every other record is
    left alone, and the new count is printed.  A request that differs from
    another in the address only, or in the user agent only, does not count
    for it.  In any run from start-up, with any other clients in between,
    one line is printed per request, the counts printed for the requests
    made under one key are 1, 2, ..., N in request order and N is the count
    held at the end; a run of one client alone prints 1, 2, ..., N. *)
Theorem every_request_is_counted
    (cfg : Config) (reqs : list Request) (key : string) :
  (forall (req : Request) (st : Ledger),
     let k := client_ip req +:+ "::" +:+ client_ua req in
     let st' := snd (fetch cfg req st) in
     (req.(requestIP) = None -> client_ip req = "unknown") /\
     (req.(user_agent) = None -> client_ua req = "unknown") /\
     (req.(requestIP) = Some EmptyString -> client_ip req = "unknown") /\
     (req.(user_agent) = Some EmptyString -> client_ua req = "unknown") /\
     (forall a, req.(requestIP) = Some a -> a <> EmptyString -> client_ip req = a) /\
     (forall u, req.(user_agent) = Some u -> u <> EmptyString -> client_ua req = u) /\
     hits st' k = hits st k + 1 /\
     (forall k', k' <> k -> st'.(clientMap) !! k' = st.(clientMap) !! k') /\
     map log_count st'.(console) = map log_count st.(console) ++ [hits st k + 1] /\
     (forall other : Request,
        (client_ip req <> client_ip other /\ client_ua req = client_ua other) \/
        (client_ip req = client_ip other /\ client_ua req <> client_ua other) ->
        hits st' (client_ip other +:+ "::" +:+ client_ua other) =
        hits st (client_ip other +:+ "::" +:+ client_ua other)))
  /\ (let st := snd (serve cfg reqs empty_ledger) in
      let n := length (List.filter
                         (fun req => String.eqb (client_ip req +:+ "::" +:+ client_ua req) key)
                         reqs) in
      length st.(console) = length reqs /\
      counts_under key reqs st.(console) = map N.of_nat (seq 1 n) /\
      hits st key = N.of_nat n)
  /\ (forall ip0 ua0 : string,
        Forall (fun req => client_ip req = ip0 /\ client_ua req = ua0) reqs ->
        map log_count (console (snd (serve cfg reqs empty_ledger))) =
        map N.of_nat (seq 1 (length reqs)) /\
        hits (snd (serve cfg reqs empty_ledger)) (ip0 +:+ "::" +:+ ua0) =
        N.of_nat (length reqs)).
Proof.
  split; [|split].
  - intros req st k st'. subst k st'. rewrite fetch_ledger.
    change (client_ip req +:+ "::" +:+ client_ua req)
      with (client_key (client_ip req) (client_ua req)).
    split; [unfold client_ip; now intros ->|].
    split; [unfold client_ua; now intros ->|].
    split; [unfold client_ip; now intros ->|].
    split; [unfold client_ua; now intros ->|].
    split; [unfold client_ip; intros a -> Ha; destruct a; [congruence | reflexivity]|].
    split; [unfold client_ua; intros u -> Hu; destruct u; [congruence | reflexivity]|].
    split; [apply logRequest_hits|].
    split; [intros k' Hk'; unfold logRequest; simpl;
            now rewrite lookup_insert_ne by congruence|].
    split; [apply logRequest_console|].
    intros other Hother.
    change (client_ip other +:+ "::" +:+ client_ua other)
      with (client_key (client_ip other) (client_ua other)).
    apply logRequest_hits_other. intros E. symmetry in E. revert E.
    now apply client_key_components.
  - cbv zeta.
    destruct (serve_counts_by_key cfg key reqs empty_ledger) as (lines & Hc & Hl & Hk & Hh).
    cbn [empty_ledger console app] in Hc. rewrite Hc, Hk, Hh. split; [exact Hl|]. split.
    + apply map_ext. intros i. unfold hits; simpl. rewrite lookup_empty. lia.
    + unfold hits; simpl. rewrite lookup_empty. lia.
  - intros ip0 ua0 Hsame.
    change (ip0 +:+ "::" +:+ ua0) with (client_key ip0 ua0).
    destruct (serve_same_client cfg ip0 ua0 reqs Hsame empty_ledger) as [Hc Hh].
    rewrite Hc, Hh. split.
    + simpl. apply map_ext. intros i. unfold hits; simpl. rewrite lookup_empty. lia.
    + unfold hits; simpl. rewrite lookup_empty. lia.
Qed.

Lemma every_request_is_counted_witness :
  map log_count (console (snd (serve sample_cfg sample_crowd empty_ledger))) =
    [1; 1; 2; 1; 3; 2] /\
  counts_under "10.0.0.7::curl/8.0" sample_crowd
    (console (snd (serve sample_cfg sample_crowd empty_ledger))) = [1; 2; 3] /\
  hits (snd (serve sample_cfg sample_crowd empty_ledger)) "10.0.0.7::curl/8.0" = 3 /\
  map log_count (console (snd (serve sample_cfg sample_visit empty_ledger))) = [1; 2; 3].
Proof.
  split; [vm_compute; reflexivity|].
  split; [exact (proj1 (proj2 (proj1 (proj2
            (every_request_is_counted sample_cfg sample_crowd "10.0.0.7::curl/8.0")))))|].
  split; [exact (proj2 (proj2 (proj1 (proj2
            (every_request_is_counted sample_cfg sample_crowd "10.0.0.7::curl/8.0")))))|].
  refine (proj1 (proj2 (proj2
            (every_request_is_counted sample_cfg sample_visit EmptyString))
            "10.0.0.7" "curl/8.0" _)).
  repeat constructor.
Defined.

(** C10. The key [ip::ua] does not determine the pair: ("a::b", "c") and
    ("a", "b::c") are different clients with one key, so their requests
    share one record and one counter. *)
Theorem client_key_collision :
  (("a::b", "c") : string * string) <> ("a", "b::c") /\
  client_key "a::b" "c" = client_key "a" "b::c" /\
  (forall x y z : string,
     client_key (x +:+ "::" +:+ y) z = client_key x (y +:+ "::" +:+ z)) /\
  (forall (cfg : Config) (p1 p2 : string),
     let r1 := mkRequest p1 (Some "a::b") (Some "c") in
     let r2 := mkRequest p2 (Some "a") (Some "b::c") in
     let st := snd (serve cfg [r1; r2] empty_ledger) in
     map log_count st.(console) = [1; 2] /\
     st.(clientMap) = {[ "a::b::c" := mkClientInfo "a::b" "c" 2 ]}).
Proof.
  split; [discriminate|]. split; [reflexivity|]. split.
  - intros x y z. unfold client_key. now rewrite !append_assoc.
  - intros cfg p1 p2 r1 r2 st. subst st.
    rewrite !serve_cons, !fetch_ledger. simpl serve. unfold snd.
    subst r1 r2. unfold client_ip, client_ua. simpl JS.or_else.
    unfold logRequest, empty_ledger. simpl client_key. cbn [clientMap console].
    rewrite lookup_empty. cbn [next_info]. rewrite lookup_insert_eq.
    cbn [next_info ip ua count]. split.
    + reflexivity.
    + rewrite insert_insert_eq. reflexivity.
Qed.

(** ** FileServer: routes, sizes and the page *)

Lemma page_shows (name sizeMB token : string) :
  contains name (page name sizeMB token) /\
  contains (sizeMB +:+ " MB") (page name sizeMB token) /\
  contains ("/download/" +:+ token) (page name sizeMB token).
Proof.
  unfold page. split; [|split].
  - apply contains_middle.
  - apply (contains_append_l _ page_1), (contains_append_l _ name),
      (contains_append_l _ page_2), (contains_append_l _ name),
      (contains_append_l _ page_3).
    assert (H4 : exists rest, page_4 = " MB" +:+ rest) by (eexists; reflexivity).
    destruct H4 as [rest ->].
    exists EmptyString, (rest +:+ token +:+ page_5).
    change (EmptyString +:+ ?x) with x. now rewrite !append_assoc.
  - apply (contains_append_l _ page_1), (contains_append_l _ name),
      (contains_append_l _ page_2), (contains_append_l _ name),
      (contains_append_l _ page_3), (contains_append_l _ sizeMB).
    assert (H4 : exists before, page_4 = before +:+ "/download/")
      by (exists (String.substring 0 (String.length page_4 - 10) page_4);
          vm_compute; reflexivity).
    destruct H4 as [before ->].
    exists before, page_5. now rewrite !append_assoc.
Qed.

Lemma page_link (name sizeMB token : string) :
  contains ("href=" +:+ JS.dq +:+ "/download/" +:+ token +:+ JS.dq)
           (page name sizeMB token).
Proof.
  unfold page.
  assert (H4 : exists before, page_4 = before +:+ "href=" +:+ JS.dq +:+ "/download/")
    by (exists (String.substring 0 (String.length page_4 - 16) page_4);
        vm_compute; reflexivity).
  assert (H5 : exists after, page_5 = JS.dq +:+ after)
    by (exists (String.substring 1 (String.length page_5 - 1) page_5);
        vm_compute; reflexivity).
  destruct H4 as [before ->], H5 as [after ->].
  exists (page_1 +:+ name +:+ page_2 +:+ name +:+ page_3 +:+ sizeMB +:+ before), after.
  now rewrite !append_assoc.
Qed.

(** The page is an HTML document from its first line to its last, and its
    title names the file. *)
Lemma page_frame (name sizeMB token : string) :
  (exists middle,
     page name sizeMB token = newline +:+ "<!DOCTYPE html>" +:+ middle +:+ "</html>") /\
  contains ("<title>Download " +:+ name +:+ "</title>") (page name sizeMB token).
Proof.
  unfold page.
  assert (H1 : exists rest, page_1 = newline +:+ "<!DOCTYPE html>" +:+ rest +:+ "<title>Download ")
    by (exists (String.substring 16 (String.length page_1 - 32) page_1);
        vm_compute; reflexivity).
  assert (H2 : exists rest, page_2 = "</title>" +:+ rest) by (eexists; reflexivity).
  assert (H5 : exists before, page_5 = before +:+ "</html>")
    by (exists (String.substring 0 (String.length page_5 - 7) page_5);
        vm_compute; reflexivity).
  destruct H1 as [rest1 ->], H2 as [rest2 ->], H5 as [before5 ->]. split.
  - exists (rest1 +:+ "<title>Download " +:+ name +:+ ("</title>" +:+ rest2) +:+ name +:+
            page_3 +:+ sizeMB +:+ page_4 +:+ token +:+ before5).
    now rewrite !append_assoc.
  - exists (newline +:+ "<!DOCTYPE html>" +:+ rest1),
           (rest2 +:+ name +:+ page_3 +:+ sizeMB +:+ page_4 +:+ token +:+ before5 +:+ "</html>").
    now rewrite !append_assoc.
Qed.

(** C1. The path decides the answer: exactly /download/{token} gives the
    file with status 200 and the three download headers; exactly /{token}
    gives, as text/html, an HTML document that names the file in its title
    and links to the download; anything else gives status 404 and the fixed
    two lines of information. *)
Theorem fetch_routes (cfg : Config) (req : Request) (st : Ledger) :
  let r := fst (fetch cfg req st) in
  (req.(pathname) = "/download/" +:+ cfg.(urlPath) ->
     r.(status) = 200 /\
     r.(body) = BunFile cfg.(filePath) /\
     (forall fs content, fs !! cfg.(filePath) = Some (File content) ->
        body_bytes fs r.(body) = Some content) /\
     header "Content-Type" r.(headers) = Some "application/octet-stream" /\
     header "Content-Disposition" r.(headers) =
       Some ("attachment; filename=" +:+ JS.dq +:+ cfg.(fileName) +:+ JS.dq) /\
     header "Content-Length" r.(headers) = Some (JS.Number_toString cfg.(fileSize)))
  /\
  (req.(pathname) = "/" +:+ cfg.(urlPath) ->
     r.(status) = 200 /\
     (exists html,
        r.(body) = Text html /\
        (exists middle,
           html = newline +:+ "<!DOCTYPE html>" +:+ middle +:+ "</html>") /\
        contains ("<title>Download " +:+ cfg.(fileName) +:+ "</title>") html /\
        contains ("href=" +:+ JS.dq +:+ "/download/" +:+ cfg.(urlPath) +:+ JS.dq) html) /\
     header "Content-Type" r.(headers) = Some "text/html")
  /\
  (req.(pathname) <> "/download/" +:+ cfg.(urlPath) ->
   req.(pathname) <> "/" +:+ cfg.(urlPath) ->
     r.(status) = 404 /\
     r.(headers) = [] /\
     r.(body) =
       Text ("Hi there! Looks like you landed on the main page." +:+ newline +:+
             "To get your file, just make sure to use the special link we gave you." +:+
             newline)).
Proof.
  intros r. subst r. split; [|split].
  - intros H. rewrite (fetch_download _ _ _ H).
    repeat split. intros fs content Hfs. simpl. now rewrite Hfs.
  - intros H. rewrite (fetch_info _ _ _ H). unfold info_response.
    split; [reflexivity|]. split; [|reflexivity].
    eexists. split; [reflexivity|].
    destruct (page_frame cfg.(fileName) (JS.toFixed2 cfg.(fileSize) (1024 * 1024))
                cfg.(urlPath)) as [Hframe Htitle].
    split; [exact Hframe|]. split; [exact Htitle | apply page_link].
  - intros H1 H2. rewrite (fetch_elsewhere _ _ _ H1 H2).
    split; [reflexivity|]. split; reflexivity.
Qed.

Lemma fetch_routes_witness :
  (sample_download.(pathname) = "/download/" +:+ sample_cfg.(urlPath) /\
   (fst (fetch sample_cfg sample_download empty_ledger)).(status) = 200 /\
   body_bytes sample_fs (fst (fetch sample_cfg sample_download empty_ledger)).(body) =
     Some [Byte.x68; Byte.x69; Byte.x0a] /\
   header "Content-Type"
     (fst (fetch sample_cfg sample_download empty_ledger)).(headers) =
     Some "application/octet-stream" /\
   header "Content-Disposition"
     (fst (fetch sample_cfg sample_download empty_ledger)).(headers) =
     Some ("attachment; filename=" +:+ JS.dq +:+ "notes.txt" +:+ JS.dq) /\
   header "Content-Length"
     (fst (fetch sample_cfg sample_download empty_ledger)).(headers) = Some "3") /\
  (sample_info.(pathname) = "/" +:+ sample_cfg.(urlPath) /\
   (exists html,
      (fst (fetch sample_cfg sample_info empty_ledger)).(body) = Text html /\
      contains "<title>Download notes.txt</title>" html /\
      contains ("href=" +:+ JS.dq +:+ "/download/k3x9q" +:+ JS.dq) html) /\
   header "Content-Type"
     (fst (fetch sample_cfg sample_info empty_ledger)).(headers) = Some "text/html") /\
  (sample_stray.(pathname) <> "/download/" +:+ sample_cfg.(urlPath) /\
   sample_stray.(pathname) <> "/" +:+ sample_cfg.(urlPath) /\
   (fst (fetch sample_cfg sample_stray empty_ledger)).(status) = 404 /\
   (fst (fetch sample_cfg sample_stray empty_ledger)).(body) =
     Text ("Hi there! Looks like you landed on the main page." +:+ newline +:+
           "To get your file, just make sure to use the special link we gave you." +:+
           newline)).
Proof.
  assert (H1 : sample_download.(pathname) = "/download/" +:+ sample_cfg.(urlPath))
    by reflexivity.
  assert (H2 : sample_info.(pathname) = "/" +:+ sample_cfg.(urlPath))
    by reflexivity.
  assert (H3 : sample_stray.(pathname) <> "/download/" +:+ sample_cfg.(urlPath))
    by discriminate.
  assert (H4 : sample_stray.(pathname) <> "/" +:+ sample_cfg.(urlPath))
    by discriminate.
  split; [|split].
  - destruct (proj1 (fetch_routes sample_cfg sample_download empty_ledger) H1)
      as (Hs & _ & Hb & Ht & Hd & Hl).
    split; [exact H1|]. split; [exact Hs|].
    split; [apply Hb; vm_compute; reflexivity|].
    split; [exact Ht|]. split; [exact Hd | exact Hl].
  - destruct (proj1 (proj2 (fetch_routes sample_cfg sample_info empty_ledger)) H2)
      as (_ & (html & Hb & _ & Htitle & Hlink) & Ht).
    split; [exact H2|]. split; [|exact Ht].
    exists html. split; [exact Hb|]. split; [exact Htitle | exact Hlink].
  - destruct (proj2 (proj2 (fetch_routes sample_cfg sample_stray empty_ledger)) H3 H4)
      as (Hs & _ & Hb).
    split; [exact H3|]. split; [exact H4|]. split; [exact Hs | exact Hb].
Defined.

(** The decimal digits printed for a number read back as that number. *)
Lemma Number_toString_value (n : N) :
  option_map N.of_uint (NilZero.uint_of_string (JS.Number_toString n)) = Some n.
Proof.
  unfold JS.Number_toString. rewrite NilZero.usu.
  - simpl. now rewrite DecimalN.Unsigned.of_to.
  - destruct n; simpl; [discriminate | apply DecimalPos.Unsigned.to_uint_nonnil].
Qed.

Lemma startup_serving (fs : gmap string Node) (port0 : N) (path random36 : string) (cfg : Config) :
  startup fs port0 path random36 = Serving cfg ->
  statSync_size fs path = Some cfg.(fileSize) /\
  cfg.(filePath) = path /\
  cfg.(fileName) = JS.basename path /\
  cfg.(urlPath) = JS.substring 2 7 random36 /\
  cfg.(port) = port0.
Proof.
  unfold startup. destruct (JS.is_empty path); [discriminate|].
  destruct (String.eqb path "help"); [discriminate|].
  destruct (String.eqb path "version"); [discriminate|].
  destruct (statSync_size fs path); [|discriminate].
  intros [= <-]. repeat split.
Qed.

(** C5. A download of a served file of S bytes carries exactly S bytes and a
    Content-Length header whose value is S. *)
Theorem download_has_file_size
    (fs0 fs : gmap string Node) (port0 : N) (path random36 : string) (cfg : Config)
    (content0 content : list Byte.byte) (size : N) (req : Request) (st : Ledger)
    (Hstart : startup fs0 port0 path random36 = Serving cfg)
    (Hfile0 : fs0 !! path = Some (File content0))
    (Hsize0 : N.of_nat (length content0) = size)
    (Hfile : fs !! path = Some (File content))
    (Hsize : N.of_nat (length content) = size)
    (Hpath : req.(pathname) = "/download/" +:+ cfg.(urlPath)) :
  let r := fst (fetch cfg req st) in
  (exists bytes, body_bytes fs r.(body) = Some bytes /\ N.of_nat (length bytes) = size) /\
  (exists value, header "Content-Length" r.(headers) = Some value /\
     value = JS.Number_toString size /\
     option_map N.of_uint (NilZero.uint_of_string value) = Some size).
Proof.
  intros r. subst r. rewrite (fetch_download _ _ _ Hpath).
  destruct (startup_serving _ _ _ _ _ Hstart) as (Hstat & Hfp & _).
  unfold statSync_size in Hstat. rewrite Hfile0 in Hstat. injection Hstat as Hstat.
  split.
  - exists content. simpl. rewrite Hfp, Hfile. now split.
  - exists (JS.Number_toString size). simpl.
    rewrite <- Hstat, Hsize0. repeat split. apply Number_toString_value.
Qed.

Lemma download_has_file_size_witness :
  startup sample_fs 8000 sample_path sample_random36 = Serving sample_cfg /\
  let r := fst (fetch sample_cfg sample_download empty_ledger) in
  (exists bytes, body_bytes sample_fs r.(body) = Some bytes /\ N.of_nat (length bytes) = 3) /\
  (exists value, header "Content-Length" r.(headers) = Some value /\
     value = JS.Number_toString 3 /\
     option_map N.of_uint (NilZero.uint_of_string value) = Some 3).
Proof.
  assert (Hstart : startup sample_fs 8000 sample_path sample_random36 = Serving sample_cfg)
    by (vm_compute; reflexivity).
  split; [exact Hstart|].
  apply (download_has_file_size sample_fs sample_fs 8000 sample_path sample_random36
           sample_cfg sample_content sample_content 3 sample_download empty_ledger Hstart).
  - vm_compute; reflexivity.
  - reflexivity.
  - vm_compute; reflexivity.
  - reflexivity.
  - reflexivity.
Defined.

Lemma all_chars_append (p : ascii -> bool) (s1 s2 : string) :
  all_chars p (s1 +:+ s2) = all_chars p s1 && all_chars p s2.
Proof.
  induction s1 as [|c s1 IH]; simpl; [reflexivity|].
  rewrite IH. now rewrite andb_assoc.
Qed.

Lemma basename_from_no_slash (p cur last : string) :
  all_chars not_slash cur = true ->
  all_chars not_slash last = true ->
  all_chars not_slash (JS.basename_from cur last p) = true.
Proof.
  revert cur last. induction p as [|c p IH]; intros cur last Hcur Hlast; simpl.
  - now destruct (JS.is_empty cur).
  - destruct (Ascii.eqb c "/") eqn:Hc.
    + apply IH; [reflexivity|]. now destruct (JS.is_empty cur).
    + apply IH; [|assumption].
      rewrite all_chars_append, Hcur. simpl.
      unfold not_slash, is_slash. now rewrite Hc.
Qed.

Lemma contains_empty (hay : string) : contains EmptyString hay.
Proof. exists hay, EmptyString. simpl. now rewrite append_nil_r. Qed.

Lemma basename_from_contains (p cur last seen : string) :
  (exists x, seen = x +:+ cur) ->
  contains last seen ->
  contains (JS.basename_from cur last p) (seen +:+ p).
Proof.
  revert cur last seen.
  induction p as [|c p IH]; intros cur last seen [x Hx] Hlast; simpl.
  - rewrite append_nil_r. destruct (JS.is_empty cur); [assumption|].
    exists x, EmptyString. now rewrite append_nil_r.
  - replace (seen +:+ String c p) with ((seen +:+ String c EmptyString) +:+ p)
      by now rewrite append_assoc.
    destruct (Ascii.eqb c "/").
    + apply IH.
      * exists (seen +:+ String c EmptyString). now rewrite append_nil_r.
      * apply contains_append_r. destruct (JS.is_empty cur); [assumption|].
        exists x, EmptyString. now rewrite append_nil_r.
    + apply IH.
      * exists x. now rewrite Hx, append_assoc.
      * now apply contains_append_r.
Qed.

(** The name shown for a path holds no slash and is a piece of the path. *)
Lemma basename_is_a_name (p : string) :
  all_chars not_slash (JS.basename p) = true /\ contains (JS.basename p) p.
Proof.
  split.
  - now apply basename_from_no_slash.
  - apply (basename_from_contains p EmptyString EmptyString EmptyString).
    + now exists EmptyString.
    + apply contains_empty.
Qed.

(** The hundredths printed by [toFixed(2)] are the nearest to the exact
    quotient, the larger of two equally near. *)
Lemma toFixed2_hundredths_nearest (num den : N) :
  den <> 0 ->
  let n := JS.toFixed2_hundredths num den in
  2 * (den * n) <= 200 * num + den /\ 200 * num + den < 2 * (den * n) + 2 * den.
Proof.
  intros Hden n. subst n. unfold JS.toFixed2_hundredths.
  assert (H2 : 2 * den <> 0) by lia.
  pose proof (N.Div0.mul_div_le (200 * num + den) (2 * den)) as Hle.
  pose proof (N.mul_succ_div_gt (200 * num + den) (2 * den) H2) as Hgt.
  split; lia.
Qed.

Lemma basename_from_plain (name cur last : string) :
  all_chars not_slash name = true ->
  JS.basename_from cur last name =
  if JS.is_empty (cur +:+ name) then last else cur +:+ name.
Proof.
  revert cur. induction name as [|c name IH]; intros cur Hname; simpl.
  - now rewrite append_nil_r.
  - simpl in Hname. apply andb_true_iff in Hname as [Hc Hname].
    unfold not_slash, is_slash in Hc. apply negb_true_iff in Hc. rewrite Hc.
    rewrite (IH _ Hname), append_assoc. reflexivity.
Qed.

Lemma basename_from_dir (dir name cur last : string) :
  name <> EmptyString -> all_chars not_slash name = true ->
  JS.basename_from cur last (dir +:+ "/" +:+ name) = name.
Proof.
  intros Hne Hname. revert cur last.
  induction dir as [|c dir IH]; intros cur last.
  - change (EmptyString +:+ "/" +:+ name) with (String "/" name).
    cbn [JS.basename_from]. change (Ascii.eqb "/" "/") with true. cbv iota.
    rewrite (basename_from_plain name _ _ Hname).
    destruct name; [contradiction | reflexivity].
  - change (String c dir +:+ "/" +:+ name) with (String c (dir +:+ "/" +:+ name)).
    cbn [JS.basename_from]. destruct (Ascii.eqb c "/"); apply IH.
Qed.

Lemma no_slash_iff (s : string) :
  all_chars not_slash s = true <-> ~ contains "/" s.
Proof.
  split.
  - intros H (a & b & ->). rewrite !all_chars_append in H.
    apply andb_true_iff in H as [_ H]. apply andb_true_iff in H as [H _]. discriminate H.
  - induction s as [|c s IH]; intros H; [reflexivity|]. simpl.
    apply andb_true_iff. split.
    + unfold not_slash, is_slash. destruct (Ascii.eqb_spec c "/") as [->|_]; [|reflexivity].
      exfalso. apply H. now exists EmptyString, s.
    + apply IH. intros (a & b & ->). apply H. now exists (String c a), b.
Qed.

(** The last component of a path is its base name. *)
Lemma basename_last_component (path dir name : string) :
  name <> EmptyString -> ~ contains "/" name ->
  path = name \/ path = dir +:+ "/" +:+ name ->
  JS.basename path = name.
Proof.
  intros Hne Hns Hpath. apply no_slash_iff in Hns. destruct Hpath as [-> | ->].
  - unfold JS.basename. rewrite (basename_from_plain name _ _ Hns).
    destruct name; [contradiction | reflexivity].
  - now apply basename_from_dir.
Qed.

Lemma mod_100_mod_10 (n : N) : (n mod 100) mod 10 = n mod 10.
Proof.
  pose proof (N.Div0.mod_mul_r n 10 10) as H. change (10 * 10) with 100 in H.
  rewrite H, (N.mul_comm 10), N.Div0.mod_add. apply N.Div0.mod_mod.
Qed.

Lemma below_100_cases (P : N -> bool) :
  forallb (fun k => P (N.of_nat k)) (seq 0 100) = true ->
  forall m, m < 100 -> P m = true.
Proof.
  intros H m Hm. rewrite forallb_forall in H.
  specialize (H (N.to_nat m)). rewrite N2Nat.id in H. apply H.
  apply in_seq. lia.
Qed.

(** The two decimals are the hundredths in decimal, with a zero in front of
    a single digit. *)
Lemma two_digits_print (m : N) :
  m < 100 ->
  String (JS.digit_char (m / 10)) (String (JS.digit_char (m mod 10)) EmptyString) =
  (if m <? 10 then "0" else EmptyString) +:+ NilZero.string_of_uint (N.to_uint m).
Proof.
  intros Hm. apply String.eqb_eq. revert m Hm.
  apply (below_100_cases
           (fun m => String.eqb
              (String (JS.digit_char (m / 10)) (String (JS.digit_char (m mod 10)) EmptyString))
              ((if m <? 10 then "0" else EmptyString) +:+
               NilZero.string_of_uint (N.to_uint m)))).
  vm_compute. reflexivity.
Qed.

(** Read back as a number, the two decimals are the hundredths. *)
Lemma two_digits_value (m : N) :
  m < 100 ->
  option_map N.of_uint
    (NilZero.uint_of_string
       (String (JS.digit_char (m / 10)) (String (JS.digit_char (m mod 10)) EmptyString))) =
  Some m.
Proof.
  intros Hm.
  assert (H : match option_map N.of_uint
                      (NilZero.uint_of_string
                         (String (JS.digit_char (m / 10))
                            (String (JS.digit_char (m mod 10)) EmptyString))) with
              | Some v => N.eqb v m
              | None => false
              end = true).
  { revert m Hm.
    apply (below_100_cases
             (fun m => match option_map N.of_uint
                               (NilZero.uint_of_string
                                  (String (JS.digit_char (m / 10))
                                     (String (JS.digit_char (m mod 10)) EmptyString))) with
                       | Some v => N.eqb v m
                       | None => false
                       end)).
    vm_compute. reflexivity. }
  destruct (option_map _ _) as [v|]; [|discriminate].
  apply N.eqb_eq in H. now subst.
Qed.

(** What [toFixed(2)] prints: the whole part in decimal, a point, and the
    hundredths left over on two digits. *)
Lemma toFixed2_decimal (num den : N) :
  let n := JS.toFixed2_hundredths num den in
  JS.toFixed2 num den =
  NilZero.string_of_uint (N.to_uint (n / 100)) +:+ "." +:+
  (if n mod 100 <? 10 then "0" else EmptyString) +:+
  NilZero.string_of_uint (N.to_uint (n mod 100)).
Proof.
  intros n. subst n. unfold JS.toFixed2, JS.Number_toString.
  set (n := JS.toFixed2_hundredths num den).
  rewrite <- (mod_100_mod_10 n).
  rewrite (two_digits_print (n mod 100)) by (apply N.mod_lt; discriminate).
  reflexivity.
Qed.

(** C8. The page answered at /{token} shows the base name of the served
    path: a piece of the path without a slash, the last component of the
    path.  It shows the size as the number of hundredths of a mebibyte
    nearest to S / 1048576 (the larger of two equally near), written as its
    whole part in decimal, a point and the two digits of the rest, followed
    by MB. *)
Theorem info_page_shows_name_and_size
    (fs0 : gmap string Node) (port0 : N) (path random36 : string) (cfg : Config)
    (size : N) (req : Request) (st : Ledger)
    (Hstart : startup fs0 port0 path random36 = Serving cfg)
    (Hsize : statSync_size fs0 path = Some size)
    (Hpath : req.(pathname) = "/" +:+ cfg.(urlPath)) :
  exists (html : string) (n : N),
    (fst (fetch cfg req st)).(body) = Text html /\
    contains (JS.basename path) html /\
    all_chars not_slash (JS.basename path) = true /\
    ~ contains "/" (JS.basename path) /\
    contains (JS.basename path) path /\
    (forall dir name : string,
       name <> EmptyString -> ~ contains "/" name ->
       path = name \/ path = dir +:+ "/" +:+ name ->
       JS.basename path = name) /\
    contains (NilZero.string_of_uint (N.to_uint (n / 100)) +:+ "." +:+
              (if n mod 100 <? 10 then "0" else EmptyString) +:+
              NilZero.string_of_uint (N.to_uint (n mod 100)) +:+ " MB") html /\
    2 * (1048576 * n) <= 200 * size + 1048576 < 2 * (1048576 * n) + 2 * 1048576.
Proof.
  destruct (startup_serving _ _ _ _ _ Hstart) as (Hstat & _ & Hname & _).
  rewrite Hsize in Hstat. injection Hstat as ->.
  rewrite (fetch_info _ _ _ Hpath). unfold info_response. simpl body. rewrite Hname.
  exists (page (JS.basename path) (JS.toFixed2 cfg.(fileSize) (1024 * 1024)) cfg.(urlPath)).
  exists (JS.toFixed2_hundredths cfg.(fileSize) (1024 * 1024)).
  destruct (page_shows (JS.basename path) (JS.toFixed2 cfg.(fileSize) (1024 * 1024))
              cfg.(urlPath)) as (Hn & Hs & _).
  destruct (basename_is_a_name path) as (Hslash & Hin).
  split; [reflexivity|]. split; [exact Hn|].
  split; [exact Hslash|]. split; [now apply no_slash_iff|]. split; [exact Hin|].
  split; [intros dir name; apply basename_last_component|]. split.
  - match goal with
    | |- contains ?needle _ =>
        replace needle with (JS.toFixed2 cfg.(fileSize) (1024 * 1024) +:+ " MB")
          by (rewrite toFixed2_decimal; cbv zeta; now rewrite !append_assoc)
    end.
    exact Hs.
  - change (1024 * 1024) with 1048576.
    apply (toFixed2_hundredths_nearest cfg.(fileSize) 1048576). discriminate.
Qed.

Lemma info_page_shows_name_and_size_witness :
  startup sample_archive_fs 8000 sample_archive_path sample_random36 =
    Serving sample_archive_cfg /\
  exists html : string,
    (fst (fetch sample_archive_cfg sample_info empty_ledger)).(body) = Text html /\
    contains "archive.bin" html /\
    contains "0.13 MB" html.
Proof.
  assert (Hstart : startup sample_archive_fs 8000 sample_archive_path sample_random36 =
                   Serving sample_archive_cfg)
    by (vm_compute; reflexivity).
  assert (Hsize : statSync_size sample_archive_fs sample_archive_path = Some 131072)
    by (vm_compute; reflexivity).
  split; [exact Hstart|].
  destruct (info_page_shows_name_and_size sample_archive_fs 8000 sample_archive_path
              sample_random36 sample_archive_cfg 131072 sample_info empty_ledger
              Hstart Hsize eq_refl)
    as (html & n & Hbody & Hname & _ & _ & _ & _ & Hshown & Hnear).
  assert (Hn : n = 13) by lia. subst n.
  exists html. split; [exact Hbody|]. split; [exact Hname | exact Hshown].
Defined.

(** ** The pattern *)

Lemma strip_prefix_spec (lit s rest : string) :
  strip_prefix lit s = Some rest <-> s = lit +:+ rest.
Proof.
  revert s. induction lit as [|a lit IH]; intros s; simpl.
  - split; [now intros [= ->] | now intros ->].
  - destruct s as [|b s]; [split; discriminate|].
    destruct (Ascii.eqb_spec a b) as [->|Hab].
    + rewrite IH. split; [now intros -> | now intros [= ->]].
    + split; [discriminate | intros [= -> _]; contradiction].
Qed.

Lemma span_label_spec (s : string) :
  s = fst (span_label s) +:+ snd (span_label s) /\
  all_chars is_label_char (fst (span_label s)) = true /\
  match snd (span_label s) with
  | EmptyString => True
  | String c _ => is_label_char c = false
  end.
Proof.
  induction s as [|c s (IH1 & IH2 & IH3)]; simpl; [easy|].
  destruct (is_label_char c) eqn:Hc.
  - destruct (span_label s) as [lab rest]; simpl in *.
    rewrite Hc. now rewrite <- IH1.
  - simpl. now rewrite Hc.
Qed.

Lemma span_label_exact (lab rest : string) :
  all_chars is_label_char lab = true ->
  match rest with EmptyString => True | String c _ => is_label_char c = false end ->
  span_label (lab +:+ rest) = (lab, rest).
Proof.
  intros Hlab Hrest. induction lab as [|c lab IH]; simpl in *.
  - destruct rest as [|d rest]; simpl; [reflexivity | now rewrite Hrest].
  - apply andb_true_iff in Hlab as [Hc Hlab]. now rewrite Hc, IH.
Qed.

Lemma match_here_spec (s u : string) :
  match_here s = Some u ->
  exists lab rest,
    s = url_scheme +:+ lab +:+ url_domain +:+ rest /\
    u = url_scheme +:+ lab +:+ url_domain /\
    lab <> EmptyString /\ all_chars is_label_char lab = true.
Proof.
  unfold match_here.
  destruct (strip_prefix url_scheme s) as [after|] eqn:Hscheme; [|discriminate].
  destruct (span_label_spec after) as (H1 & H2 & _).
  destruct (span_label after) as [lab after_label]; simpl in H1, H2.
  destruct lab as [|c lab]; [discriminate|]. simpl JS.is_empty. cbv iota.
  destruct (strip_prefix url_domain after_label) as [rest|] eqn:Hdomain; [|discriminate].
  intros [= <-]. apply strip_prefix_spec in Hscheme, Hdomain. subst.
  exists (String c lab), rest.
  split; [|split; [|split]]; [reflexivity | reflexivity | discriminate | assumption].
Qed.

Lemma match_here_exact (lab rest : string) :
  lab <> EmptyString -> all_chars is_label_char lab = true ->
  match_here (url_scheme +:+ lab +:+ url_domain +:+ rest) =
  Some (url_scheme +:+ lab +:+ url_domain).
Proof.
  intros Hne Hlab. unfold match_here.
  rewrite (proj2 (strip_prefix_spec url_scheme _ (lab +:+ url_domain +:+ rest)) eq_refl).
  rewrite (span_label_exact lab (url_domain +:+ rest) Hlab) by reflexivity.
  destruct lab as [|c lab]; [contradiction|]. simpl JS.is_empty. cbv iota.
  now rewrite (proj2 (strip_prefix_spec url_domain _ rest) eq_refl).
Qed.

(** A match at the head of a text is still the match once more text
    follows. *)
Lemma match_here_append (s more u : string) :
  match_here s = Some u -> match_here (s +:+ more) = Some u.
Proof.
  intros H. destruct (match_here_spec s u H) as (lab & rest & -> & -> & Hne & Hlab).
  rewrite !append_assoc. now apply match_here_exact.
Qed.

Lemma append_eq_append (a b c d : string) :
  a +:+ b = c +:+ d ->
  (exists k, c = a +:+ k /\ b = k +:+ d) \/ (exists k, a = c +:+ k /\ d = k +:+ b).
Proof.
  revert c. induction a as [|x a IH]; intros c H; simpl in H.
  - left. now exists c.
  - destruct c as [|y c]; simpl in H.
    + right. now exists (String x a).
    + injection H as -> H. destruct (IH c H) as [(k & -> & ->)|(k & -> & ->)].
      * left. now exists k.
      * right. now exists k.
Qed.

Lemma has_colon_append (a b : string) :
  has_colon (a +:+ b) = has_colon a || has_colon b.
Proof.
  induction a as [|c a IH]; simpl; [reflexivity|]. now rewrite IH, orb_assoc.
Qed.

Lemma has_colon_drop_step (n : nat) (s : string) :
  has_colon (drop_chars (S n) s) = true -> has_colon (drop_chars n s) = true.
Proof.
  revert s. induction n as [|n IH]; intros s; simpl.
  - destruct s as [|c s]; simpl; [easy|]. intros ->. apply orb_true_r.
  - destruct s as [|c s]; [easy|]. apply (IH s).
Qed.

Lemma has_colon_drop_append (n : nat) (s more : string) :
  has_colon (drop_chars n s) = true -> has_colon (drop_chars n (s +:+ more)) = true.
Proof.
  revert s. induction n as [|n IH]; intros s; simpl.
  - replace (drop_chars 0 s) with s by now destruct s.
    replace (drop_chars 0 (s +:+ more)) with (s +:+ more) by now destruct (s +:+ more).
    rewrite has_colon_append. now intros ->.
  - destruct s as [|c s]; simpl; [discriminate|]. apply IH.
Qed.

Lemma label_has_no_colon (lab : string) :
  all_chars is_label_char lab = true -> has_colon lab = false.
Proof.
  induction lab as [|c lab IH]; simpl; [reflexivity|].
  intros H. apply andb_true_iff in H as [Hc Hlab]. rewrite (IH Hlab), orb_false_r.
  destruct (Ascii.eqb_spec c ":") as [->|_]; [discriminate Hc | reflexivity].
Qed.

(** Past its scheme a match holds no colon. *)
Lemma match_has_one_colon (lab : string) :
  all_chars is_label_char lab = true ->
  has_colon (drop_chars 6 (url_scheme +:+ lab +:+ url_domain)) = false.
Proof.
  intros Hlab. simpl. rewrite has_colon_append, (label_has_no_colon lab Hlab). reflexivity.
Qed.

(** A text in which a match starts holds a colon at its sixth character or
    later. *)
Lemma find_url_colon (s u : string) :
  find_url s = Some u -> has_colon (drop_chars 5 s) = true.
Proof.
  induction s as [|c s IH]; simpl find_url.
  - destruct (match_here EmptyString) eqn:H; [|discriminate].
    apply match_here_spec in H as (lab & rest & H & _). discriminate H.
  - destruct (match_here (String c s)) as [v|] eqn:H.
    + intros _. apply match_here_spec in H as (lab & rest & -> & _). reflexivity.
    + intros Hs. apply has_colon_drop_step. exact (IH Hs).
Qed.

(** If the pattern fails at the head of a text and matches there once more
    text has arrived, the text ends inside the match: past its sixth
    character it holds no colon. *)
Lemma match_here_cut_short (s more v : string) :
  match_here s = None ->
  match_here (s +:+ more) = Some v ->
  has_colon (drop_chars 6 s) = false.
Proof.
  intros Hnone Hsome.
  destruct (match_here_spec _ _ Hsome) as (lab & rest & Heq & -> & Hne & Hlab).
  rewrite <- !append_assoc in Heq. rewrite !append_assoc in Heq.
  replace (url_scheme +:+ lab +:+ url_domain +:+ rest)
    with ((url_scheme +:+ lab +:+ url_domain) +:+ rest) in Heq
    by now rewrite !append_assoc.
  destruct (append_eq_append _ _ _ _ Heq) as [(k & Hv & _)|(k & Hs & _)].
  - destruct (has_colon (drop_chars 6 s)) eqn:Hcolon; [|reflexivity].
    apply (has_colon_drop_append 6 s k) in Hcolon.
    rewrite <- Hv, (match_has_one_colon lab Hlab) in Hcolon. discriminate.
  - rewrite Hs, !append_assoc, (match_here_exact lab k Hne Hlab) in Hnone. discriminate.
Qed.

(** The first match of a text is the first match of every longer text: a
    match found after some chunk is the one the whole output has. *)
Lemma find_url_append (s more u : string) :
  find_url s = Some u -> find_url (s +:+ more) = Some u.
Proof.
  induction s as [|c s IH]; simpl find_url.
  - destruct (match_here EmptyString) eqn:H; [|discriminate].
    apply match_here_spec in H as (lab & rest & H & _). discriminate H.
  - destruct (match_here (String c s)) as [v|] eqn:H.
    + intros [= ->]. change (String c s +:+ more) with (String c (s +:+ more)).
      simpl find_url. change (String c (s +:+ more)) with (String c s +:+ more).
      now rewrite (match_here_append _ more _ H).
    + intros Hs. change (String c s +:+ more) with (String c (s +:+ more)).
      simpl find_url. change (String c (s +:+ more)) with (String c s +:+ more).
      destruct (match_here (String c s +:+ more)) as [v|] eqn:Hm.
      * apply (match_here_cut_short _ _ _ H) in Hm.
        apply find_url_colon in Hs.
        change (drop_chars 6 (String c s)) with (drop_chars 5 s) in Hm. congruence.
      * exact (IH Hs).
Qed.

Lemma find_url_sound (s u : string) :
  find_url s = Some u -> is_tunnel_url u /\ contains u s.
Proof.
  induction s as [|c s IH]; simpl find_url.
  - destruct (match_here EmptyString) eqn:H; [|discriminate].
    apply match_here_spec in H as (lab & rest & H & _). discriminate H.
  - destruct (match_here (String c s)) as [v|] eqn:H.
    + intros [= ->]. apply match_here_spec in H as (lab & rest & Hs & -> & Hne & Hlab).
      split; [now exists lab|]. rewrite Hs. exists EmptyString, rest.
      now rewrite !append_assoc.
    + intros Hs. destruct (IH Hs) as [Hu Hin]. split; [exact Hu|].
      now apply (contains_append_l u (String c EmptyString) s).
Qed.

Lemma find_url_complete (s u : string) :
  is_tunnel_url u -> contains u s -> exists v, find_url s = Some v.
Proof.
  intros (lab & -> & Hne & Hlab) (pre & post & ->).
  induction pre as [|c pre IH].
  - exists (url_scheme +:+ lab +:+ url_domain).
    change (EmptyString +:+ ?x) with x. rewrite !append_assoc.
    pose proof (match_here_exact lab post Hne Hlab) as Hm.
    remember (url_scheme +:+ lab +:+ url_domain +:+ post) as s eqn:Es.
    destruct s as [|c s]; [discriminate Hm | simpl find_url; now rewrite Hm].
  - change (String c pre +:+ ?x) with (String c (pre +:+ x)). simpl find_url.
    destruct (match_here _) as [v|]; [now exists v | exact IH].
Qed.

Lemma last_char_append (a b : string) :
  b <> EmptyString -> last_char (a +:+ b) = last_char b.
Proof.
  intros Hb. induction a as [|c a IH]; [reflexivity|].
  change (String c a +:+ b) with (String c (a +:+ b)). cbn [last_char].
  destruct (a +:+ b) eqn:E; [|exact IH].
  destruct a; simpl in E; [contradiction | discriminate].
Qed.

Lemma match_ends_with_m (lab : string) :
  last_char (url_scheme +:+ lab +:+ url_domain) = Some "m"%char.
Proof.
  rewrite <- append_assoc. now rewrite last_char_append.
Qed.

Lemma has_colon_drop_prepend (n : nat) (a b : string) :
  has_colon (drop_chars n b) = true -> has_colon (drop_chars n (a +:+ b)) = true.
Proof.
  intros H. induction a as [|c a IH]; [exact H|].
  change (String c a +:+ b) with (String c (a +:+ b)).
  destruct n as [|n]; simpl.
  - replace (a +:+ b) with (drop_chars 0 (a +:+ b)) by now destruct (a +:+ b).
    rewrite IH. apply orb_true_r.
  - now apply has_colon_drop_step.
Qed.

(** How far into a text that starts with "https:" a piece of its beginning
    reaches. *)
Lemma scheme_prefix_cases (k rest tail : string) :
  "https:" +:+ tail = k +:+ rest ->
  (k = EmptyString \/ k = "h" \/ k = "ht" \/ k = "htt" \/ k = "http" \/ k = "https") \/
  exists k', k = "https:" +:+ k'.
Proof.
  intros H.
  destruct k as [|c1 [|c2 [|c3 [|c4 [|c5 [|c6 k']]]]]]; simpl in H;
    try (inversion H; subst; clear H); auto 10.
  right. now exists k'.
Qed.

(** Where no match starts earlier, a tunnel URL in the text is the match. *)
Lemma find_url_first (pre u post : string) :
  find_url pre = None -> is_tunnel_url u ->
  find_url (pre +:+ u +:+ post) = Some u.
Proof.
  intros Hpre (lab & -> & Hne & Hlab).
  pose proof (match_here_exact lab post Hne Hlab) as Hu.
  induction pre as [|c pre IH].
  - change (EmptyString +:+ ?x) with x. rewrite !append_assoc.
    remember (url_scheme +:+ lab +:+ url_domain +:+ post) as s eqn:Es.
    destruct s as [|c s]; [discriminate Hu | simpl find_url; now rewrite Hu].
  - simpl find_url in Hpre.
    destruct (match_here (String c pre)) as [v0|] eqn:Hm0; [discriminate|].
    change (String c pre +:+ ?x) with (String c (pre +:+ x)). simpl find_url.
    change (String c (pre +:+ ?x)) with (String c pre +:+ x).
    destruct (match_here (String c pre +:+ _)) as [v|] eqn:Hm; [exfalso | exact (IH Hpre)].
    destruct (match_here_spec _ _ Hm) as (lab' & rest & Heq & -> & Hne' & Hlab').
    replace (url_scheme +:+ lab' +:+ url_domain +:+ rest)
      with ((url_scheme +:+ lab' +:+ url_domain) +:+ rest) in Heq
      by now rewrite !append_assoc.
    destruct (append_eq_append _ _ _ _ Heq) as [(k & Hv & Hk)|(k & Hs & _)].
    + assert (Hk' : "https:" +:+ ("//" +:+ lab +:+ url_domain +:+ post) = k +:+ rest)
        by (rewrite <- Hk; now rewrite !append_assoc).
      pose proof (match_ends_with_m lab') as Hlast.
      pose proof (match_has_one_colon lab' Hlab') as Hcolon.
      rewrite Hv in Hlast, Hcolon.
      destruct (scheme_prefix_cases _ _ _ Hk')
        as [[->|[->|[->|[->|[->| ->]]]]]|[k' ->]];
        try (rewrite last_char_append in Hlast by discriminate; discriminate Hlast).
      * rewrite append_nil_r in Hv. rewrite <- Hv in Hm0.
        pose proof (match_here_exact lab' EmptyString Hne' Hlab') as Hx.
        rewrite <- !append_assoc, append_nil_r, !append_assoc in Hx. congruence.
      * change (drop_chars 6 (String c pre +:+ "https:" +:+ k'))
          with (drop_chars 5 (pre +:+ "https:" +:+ k')) in Hcolon.
        rewrite has_colon_drop_prepend in Hcolon by reflexivity. discriminate.
    + rewrite Hs, !append_assoc, (match_here_exact lab' k Hne' Hlab') in Hm0. discriminate.
Qed.

(** ** The discovery phase as a state machine *)

Lemma run_app (t : Tunnel) (events more : list Event) :
  run t (events ++ more) = run (run t events) more.
Proof. unfold run. apply fold_left_app. Qed.

(** Unfold one event on a state given by its fields and split on every test
    the callbacks make. *)
Ltac step_cases :=
  unfold step, reading, on_chunk, on_timeout, on_exit, stop_reading, resolve;
  cbn [output urlFound promise stdout_reading stderr_reading
       timer_pending exit_pending kill_calls errors negb];
  repeat match goal with
         | |- context [match find_url ?s with _ => _ end] => destruct (find_url s)
         | |- context [if ?b then _ else _] => destruct b
         | |- context [match ?p with Some _ => _ | None => _ end] => destruct p
         end;
  cbn [output urlFound promise stdout_reading stderr_reading
       timer_pending exit_pending kill_calls errors negb].

(** First resolution wins: no event changes a settled promise. *)
Lemma promise_settled_step (t : Tunnel) (e : Event) (r : option string) :
  t.(promise) = Some r -> (step t e).(promise) = Some r.
Proof.
  destruct t as [out found prom ro re tp ep kc errs]; cbn [promise]; intros ->.
  destruct e as [[|] chunk|[|]|[|]| |code]; step_cases; reflexivity.
Qed.

Lemma promise_settled_run (events : list Event) (t : Tunnel) (r : option string) :
  t.(promise) = Some r -> (run t events).(promise) = Some r.
Proof.
  revert t. induction events as [|e events IH]; intros t H; [exact H|].
  apply IH. now apply promise_settled_step.
Qed.

Lemma tunnel_inv_spawned : tunnel_inv spawned.
Proof. unfold tunnel_inv, spawned; simpl. repeat split; try discriminate; auto. Qed.

Lemma tunnel_inv_step (t : Tunnel) (e : Event) :
  tunnel_inv t -> tunnel_inv (step t e).
Proof.
  unfold tunnel_inv.
  destruct t as [out found prom ro re tp ep kc errs];
    cbn [output urlFound promise stdout_reading stderr_reading
         timer_pending exit_pending kill_calls errors].
  intros (I1 & I2 & I3 & I4).
  assert (I4' : match prom with
                | Some (Some _) => found = true /\ kc = 0%nat
                | _ => True
                end)
    by (destruct prom as [[u|]|]; [exact (I4 u eq_refl) | exact I | exact I]).
  clear I4.
  destruct found, tp, prom as [[u0|]|];
    destruct e as [[|] chunk|[|]|[|]| |code]; step_cases;
    intuition (try discriminate; try congruence; try lia).
Qed.

Lemma tunnel_inv_run (events : list Event) (t : Tunnel) :
  tunnel_inv t -> tunnel_inv (run t events).
Proof.
  revert t. induction events as [|e events IH]; intros t H; [exact H|].
  apply IH. now apply tunnel_inv_step.
Qed.

Lemma kill_calls_step (t : Tunnel) (e : Event) :
  (step t e).(kill_calls) = t.(kill_calls) \/
  (e = TimerFired /\ t.(timer_pending) = true /\ t.(urlFound) = false /\
   (step t e).(kill_calls) = S t.(kill_calls)).
Proof.
  destruct t as [out found prom ro re tp ep kc errs].
  destruct found, tp; destruct e as [[|] chunk|[|]|[|]| |code]; step_cases; auto.
Qed.

Lemma kill_calls_run_mono (events : list Event) (t : Tunnel) :
  (t.(kill_calls) <= (run t events).(kill_calls))%nat.
Proof.
  revert t. induction events as [|e events IH]; intros t; [reflexivity|].
  simpl. etransitivity; [|apply IH].
  destruct (kill_calls_step t e) as [->|(_ & _ & _ & ->)]; lia.
Qed.

Lemma kill_calls_bound (t : Tunnel) : tunnel_inv t -> (t.(kill_calls) <= 1)%nat.
Proof.
  intros (_ & I2 & I3 & _). destruct (timer_pending t).
  - rewrite I2; [lia | reflexivity].
  - destruct (I3 eq_refl) as [->|[_ ->]]; lia.
Qed.

(** What an event does to a pending promise. *)
Lemma pending_step (t : Tunnel) (e : Event) :
  tunnel_inv t -> t.(promise) = None ->
  match e with
  | Chunk from chunk =>
      if reading from t
      then (step t e).(promise) = option_map Some (find_url (t.(output) +:+ chunk))
      else (step t e).(promise) = None
  | Done _ | ReadError _ => (step t e).(promise) = None
  | TimerFired => (step t e).(promise) = Some None /\ (step t e).(kill_calls) = 1%nat
  | Exited _ => (step t e).(promise) = Some None
  end.
Proof.
  intros (I1 & I2 & _) Hp. destruct (I1 Hp) as (Hf & Ht & He). specialize (I2 Ht).
  destruct t as [out found prom ro re tp ep kc errs].
  cbn [output urlFound promise timer_pending exit_pending kill_calls] in *. subst.
  destruct e as [[|] chunk|[|]|[|]| |code]; step_cases; auto.
Qed.

(** A chunk read by a running reader is appended to [output] before the
    pattern is tried. *)
Lemma chunk_is_accumulated (t : Tunnel) (from : Stream) (chunk : string) :
  reading from t = true ->
  (step t (Chunk from chunk)).(output) = t.(output) +:+ chunk.
Proof.
  destruct t as [out found prom ro re tp ep kc errs].
  destruct from; cbn [reading stdout_reading stderr_reading]; intros ->;
    step_cases; reflexivity.
Qed.

Lemma chunk_without_match (t : Tunnel) (from : Stream) (chunk : string) :
  reading from t = true ->
  find_url (t.(output) +:+ chunk) = None ->
  let t' := step t (Chunk from chunk) in
  t'.(stdout_reading) = t.(stdout_reading) /\
  t'.(stderr_reading) = t.(stderr_reading) /\
  t'.(promise) = t.(promise).
Proof.
  destruct t as [out found prom ro re tp ep kc errs].
  cbn [output]. intros Hr Hnone.
  destruct from; cbn [reading stdout_reading stderr_reading] in Hr; subst;
    unfold step, reading, on_chunk;
    cbn [output urlFound promise stdout_reading stderr_reading];
    rewrite Hnone; repeat split.
Qed.

Lemma end_of_stream (t : Tunnel) (from : Stream) (e : Event) :
  e = Done from \/ e = ReadError from ->
  reading from t = true ->
  let t' := step t e in
  t'.(output) = t.(output) /\ t'.(promise) = t.(promise) /\
  t'.(stdout_reading) = match from with Stdout => false | Stderr => t.(stdout_reading) end /\
  t'.(stderr_reading) = match from with Stderr => false | Stdout => t.(stderr_reading) end.
Proof.
  intros [-> | ->] Hr; cbv zeta; unfold step; rewrite Hr; now destruct from.
Qed.

(** Reads while nothing else happens: the promise is settled with the first
    match of the whole text read, however the text was cut into chunks and
    whichever stream each chunk came from. *)
Lemma reads_as_one_text (events : list Event) (t : Tunnel) :
  tunnel_inv t -> t.(promise) = None ->
  orderly t.(stdout_reading) t.(stderr_reading) events = true ->
  find_url t.(output) = None ->
  (run t events).(promise) =
  option_map Some (find_url (t.(output) +:+ text_read events)).
Proof.
  revert t. induction events as [|e events IH]; intros t Hinv Hp Horder Hnone.
  - simpl. now rewrite append_nil_r, Hnone.
  - cbn [run fold_left]. fold (run (step t e) events).
    pose proof (tunnel_inv_step t e Hinv) as Hinv'.
    pose proof (pending_step t e Hinv Hp) as Hstep.
    destruct e as [from chunk|from|from| |code]; cbn [text_read].
    + assert (Hr : reading from t = true /\
                   orderly t.(stdout_reading) t.(stderr_reading) events = true)
        by (destruct from; cbn [orderly reading] in *;
            now apply andb_true_iff in Horder).
      destruct Hr as [Hr Hrest]. rewrite Hr in Hstep.
      rewrite <- append_assoc.
      destruct (find_url (output t +:+ chunk)) as [u|] eqn:Hfind.
      * rewrite (find_url_append _ (text_read events) _ Hfind).
        now apply promise_settled_run.
      * destruct (chunk_without_match t from chunk Hr Hfind) as (H1 & H2 & _).
        rewrite <- (chunk_is_accumulated t from chunk Hr).
        apply IH; [assumption | exact Hstep | now rewrite H1, H2 |].
        now rewrite (chunk_is_accumulated t from chunk Hr).
    + assert (Hr : reading from t = true)
        by (destruct from; cbn [orderly reading] in *;
            now apply andb_true_iff in Horder).
      destruct (end_of_stream t from (Done from) (or_introl eq_refl) Hr)
        as (Ho & _ & H1 & H2).
      rewrite <- Ho. apply IH; [assumption | exact Hstep | | now rewrite Ho].
      rewrite H1, H2. destruct from; cbn [orderly] in Horder;
        now apply andb_true_iff in Horder.
    + assert (Hr : reading from t = true)
        by (destruct from; cbn [orderly reading] in *;
            now apply andb_true_iff in Horder).
      destruct (end_of_stream t from (ReadError from) (or_intror eq_refl) Hr)
        as (Ho & _ & H1 & H2).
      rewrite <- Ho. apply IH; [assumption | exact Hstep | | now rewrite Ho].
      rewrite H1, H2. destruct from; cbn [orderly] in Horder;
        now apply andb_true_iff in Horder.
    + discriminate Horder.
    + discriminate Horder.
Qed.

(** X25. Every chunk read, from either stream, is appended to the one
    running buffer before the pattern is tried.  When the chunks of both
    streams, joined in the order they were read, hold a tunnel URL, cut over
    any number of reads, the promise is resolved with the leftmost match in
    that joined text, a complete URL of the pattern's form, and with the
    very URL that was cut when no match starts before it. *)
Theorem split_url_is_found
    (events : list Event) (u : string)
    (Horder : orderly true true events = true)
    (Hurl : is_tunnel_url u) (Hin : contains u (text_read events)) :
  (forall t from chunk, reading from t = true ->
     (step t (Chunk from chunk)).(output) = t.(output) +:+ chunk) /\
  exists url,
    (runCloudFlaredTunnel true events).(promise) = Some (Some url) /\
    find_url (text_read events) = Some url /\
    is_tunnel_url url /\ contains url (text_read events) /\
    (forall pre post,
       text_read events = pre +:+ u +:+ post -> find_url pre = None -> url = u).
Proof.
  split; [exact chunk_is_accumulated|].
  destruct (find_url_complete _ _ Hurl Hin) as [url Hfind].
  exists url. destruct (find_url_sound _ _ Hfind) as [Hu Hc].
  split; [|split; [exact Hfind | split; [exact Hu | split; [exact Hc|]]]].
  - unfold runCloudFlaredTunnel.
    rewrite (reads_as_one_text events spawned tunnel_inv_spawned);
      try reflexivity; [|exact Horder].
    change (output spawned +:+ text_read events) with (text_read events).
    now rewrite Hfind.
  - intros pre post Htext Hpre.
    rewrite Htext, (find_url_first pre u post Hpre Hurl) in Hfind. congruence.
Qed.

Lemma split_url_is_found_witness :
  orderly true true sample_reads = true /\
  is_tunnel_url "https://foo-bar.trycloudflare.com" /\
  contains "https://foo-bar.trycloudflare.com" (text_read sample_reads) /\
  exists url,
    (runCloudFlaredTunnel true sample_reads).(promise) = Some (Some url) /\
    find_url (text_read sample_reads) = Some url /\
    is_tunnel_url url /\ contains url (text_read sample_reads) /\
    (forall pre post,
       text_read sample_reads = pre +:+ "https://foo-bar.trycloudflare.com" +:+ post ->
       find_url pre = None -> url = "https://foo-bar.trycloudflare.com").
Proof.
  assert (Horder : orderly true true sample_reads = true) by reflexivity.
  assert (Hurl : is_tunnel_url "https://foo-bar.trycloudflare.com").
  { exists "foo-bar". split; [reflexivity | split; [discriminate | reflexivity]]. }
  assert (Hin : contains "https://foo-bar.trycloudflare.com" (text_read sample_reads)).
  { exists "INF |  ", "  |". reflexivity. }
  split; [exact Horder|]. split; [exact Hurl|]. split; [exact Hin|].
  exact (proj2 (split_url_is_found sample_reads _ Horder Hurl Hin)).
Defined.

(** The promise of the sample is the URL itself. *)
Example sample_reads_resolve :
  (runCloudFlaredTunnel true sample_reads).(promise) =
  Some (Some "https://foo-bar.trycloudflare.com").
Proof. reflexivity. Qed.

(** C7. The two streams share the one buffer, so a URL that stderr
    delivers cut in two is not found when a chunk of stdout is read in
    between: the promise stays pending until the timer settles it with
    [null] and kills the process; and when the chunk in between is made of
    label characters, the promise is resolved with a URL that no stream
    delivered. *)
Theorem interleaved_streams_break_the_url :
  is_tunnel_url "https://foo-bar.trycloudflare.com" /\
  orderly true true sample_interleaved = true /\
  stream_text Stderr sample_interleaved = "INF https://foo-bar.trycloudflare.com |" /\
  stream_text Stdout sample_interleaved = "starting up" /\
  find_url (stream_text Stderr sample_interleaved) =
    Some "https://foo-bar.trycloudflare.com" /\
  (runCloudFlaredTunnel true sample_interleaved).(output) =
    "INF https://foo-bstarting upar.trycloudflare.com |" /\
  (runCloudFlaredTunnel true sample_interleaved).(promise) = None /\
  (runCloudFlaredTunnel true (sample_interleaved ++ [TimerFired])).(promise) = Some None /\
  (runCloudFlaredTunnel true (sample_interleaved ++ [TimerFired])).(kill_calls) = 1%nat /\
  stream_text Stderr sample_spliced = "INF https://foo-bar.trycloudflare.com |" /\
  stream_text Stdout sample_spliced = "x" /\
  (runCloudFlaredTunnel true sample_spliced).(promise) =
    Some (Some "https://foo-bxar.trycloudflare.com") /\
  find_url (stream_text Stdout sample_spliced) = None /\
  find_url (stream_text Stderr sample_spliced) <> Some "https://foo-bxar.trycloudflare.com".
Proof.
  split; [exists "foo-bar"; split; [reflexivity | split; [discriminate | reflexivity]]|].
  do 12 (split; [vm_compute; reflexivity|]).
  vm_compute. discriminate.
Qed.

(** Every settled promise was settled by one event, the first to do so. *)
Lemma settled_by_first (events : list Event) (r : option string) :
  (run spawned events).(promise) = Some r ->
  exists pre e post,
    events = pre ++ e :: post /\
    (run spawned pre).(promise) = None /\
    (run spawned (pre ++ [e])).(promise) = Some r /\
    settles (run spawned pre).(output) e r.
Proof.
  induction events as [|e events IH] using rev_ind; [discriminate|].
  rewrite run_app. cbn [run fold_left]. fold (run spawned events).
  destruct (promise (run spawned events)) as [r'|] eqn:Hp.
  - rewrite (promise_settled_step _ e _ Hp). intros [= ->].
    destruct (IH eq_refl) as (pre & e' & post & -> & H1 & H2 & H3).
    exists pre, e', (post ++ [e]). rewrite <- app_assoc. now repeat split.
  - intros Hr. exists events, e, []. repeat split; try assumption.
    + rewrite run_app. exact Hr.
    + pose proof (pending_step _ e (tunnel_inv_run events _ tunnel_inv_spawned) Hp) as Hs.
      destruct e as [from chunk|from|from| |code]; cbn [settles].
      * destruct (reading from (run spawned events)); [|congruence].
        rewrite Hs in Hr. destruct (find_url _) as [url|]; [|discriminate].
        injection Hr as <-. split; [reflexivity | now exists url].
      * congruence.
      * congruence.
      * destruct Hs as [Hs _]. congruence.
      * congruence.
Qed.

(** C3, as stated, does not hold: a timeout and an exit with any code give
    the caller the same value, [null], so the value cannot be read back as
    one of three distinguished outcomes that carries the exit code. *)
Lemma timeout_and_exit_give_the_same_value :
  (runCloudFlaredTunnel true [TimerFired]).(promise) = Some None /\
  (runCloudFlaredTunnel true [Exited 1]).(promise) = Some None /\
  (runCloudFlaredTunnel true [Exited 0]).(promise) = Some None /\
  ~ (exists read : option string -> TunnelOutcome,
       (forall r, (runCloudFlaredTunnel true [TimerFired]).(promise) = Some r ->
                  read r = TimedOut) /\
       (forall code r, (runCloudFlaredTunnel true [Exited code]).(promise) = Some r ->
                       read r = ProcessExited code)).
Proof.
  repeat split; try reflexivity.
  intros (read & Htimeout & Hexit).
  specialize (Htimeout None eq_refl). specialize (Hexit 1%Z None eq_refl).
  congruence.
Qed.

(** C3, amended. A call settles its promise at most once and the value never
    changes afterwards; it is settled by whichever comes first of a chunk
    that completes a match, the timer and the exit of the process; the value
    is the matched URL in the first case and [null] in the other two, which
    are not told apart and carry no exit code. *)
Theorem tunnel_outcome_first_wins (events : list Event) :
  (forall r more,
     (runCloudFlaredTunnel true events).(promise) = Some r ->
     (runCloudFlaredTunnel true (events ++ more)).(promise) = Some r) /\
  (forall r,
     (runCloudFlaredTunnel true events).(promise) = Some r ->
     exists pre e post,
       events = pre ++ e :: post /\
       (runCloudFlaredTunnel true pre).(promise) = None /\
       (runCloudFlaredTunnel true (pre ++ [e])).(promise) = Some r /\
       settles (runCloudFlaredTunnel true pre).(output) e r) /\
  ((runCloudFlaredTunnel true events).(promise) = None ->
     (runCloudFlaredTunnel true (events ++ [TimerFired])).(promise) = Some None /\
     (forall code,
        (runCloudFlaredTunnel true (events ++ [Exited code])).(promise) = Some None) /\
     (forall from chunk url,
        reading from (runCloudFlaredTunnel true events) = true ->
        find_url ((runCloudFlaredTunnel true events).(output) +:+ chunk) = Some url ->
        (runCloudFlaredTunnel true (events ++ [Chunk from chunk])).(promise) =
        Some (Some url))).
Proof.
  unfold runCloudFlaredTunnel. split; [|split].
  - intros r more H. rewrite run_app. now apply promise_settled_run.
  - intros r H. exact (settled_by_first events r H).
  - intros Hp.
    pose proof (tunnel_inv_run events _ tunnel_inv_spawned) as Hinv.
    split; [|split].
    + rewrite run_app. exact (proj1 (pending_step _ TimerFired Hinv Hp)).
    + intros code. rewrite run_app. exact (pending_step _ (Exited code) Hinv Hp).
    + intros from chunk url Hr Hfind. rewrite run_app.
      pose proof (pending_step _ (Chunk from chunk) Hinv Hp) as Hs.
      cbv beta iota in Hs. rewrite Hr, Hfind in Hs. exact Hs.
Qed.

Lemma tunnel_outcome_first_wins_witness :
  (runCloudFlaredTunnel true [Exited 1]).(promise) = Some None /\
  (runCloudFlaredTunnel true ([Exited 1] ++ sample_reads ++ [TimerFired])).(promise)
  = Some None.
Proof.
  assert (H : (runCloudFlaredTunnel true [Exited 1]).(promise) = Some None) by reflexivity.
  split; [exact H|].
  exact (proj1 (tunnel_outcome_first_wins [Exited 1]) None
           (sample_reads ++ [TimerFired]) H).
Defined.

(** C9. [proc.kill()] is called when, and only when, the timer fires while
    no URL has been found: at most once in a call; on a timeout that settles
    the promise; never once the promise holds a URL; and not by the exit
    callback. *)
Theorem kill_only_on_timeout (events : list Event) :
  let t := runCloudFlaredTunnel true events in
  (t.(kill_calls) <= 1)%nat /\
  (t.(kill_calls) = 1%nat <->
     exists pre post,
       events = pre ++ TimerFired :: post /\
       (runCloudFlaredTunnel true pre).(urlFound) = false) /\
  (t.(promise) = None ->
     (step t TimerFired).(promise) = Some None /\
     (step t TimerFired).(kill_calls) = 1%nat) /\
  (forall url, t.(promise) = Some (Some url) ->
     forall more, (runCloudFlaredTunnel true (events ++ more)).(kill_calls) = 0%nat) /\
  (forall t0 code, (step t0 (Exited code)).(kill_calls) = t0.(kill_calls)).
Proof.
  unfold runCloudFlaredTunnel. cbv zeta.
  pose proof (tunnel_inv_run events _ tunnel_inv_spawned) as Hinv.
  split; [now apply kill_calls_bound|]. split; [split|split; [|split]].
  - (* a call to kill was made by the timer, before any URL was found *)
    clear Hinv. induction events as [|e events IH] using rev_ind; [discriminate|].
    rewrite run_app. cbn [run fold_left]. fold (run spawned events). intros Hk.
    destruct (kill_calls_step (run spawned events) e) as [Hsame|(-> & _ & Hf & _)].
    + rewrite Hsame in Hk. destruct (IH Hk) as (pre & post & -> & Hpre).
      exists pre, (post ++ [e]). now rewrite <- app_assoc.
    + now exists events, [].
  - (* the timer firing before any URL was found calls kill *)
    intros (pre & post & -> & Hf).
    pose proof (tunnel_inv_run pre _ tunnel_inv_spawned) as Hpre.
    assert (H1 : (step (run spawned pre) TimerFired).(kill_calls) = 1%nat).
    { destruct Hpre as (_ & I2 & I3 & _).
      destruct (run spawned pre) as [out found prom ro re tp ep kc errs].
      cbn [urlFound timer_pending kill_calls] in *. subst found.
      destruct tp; step_cases.
      - now rewrite I2.
      - destruct (I3 eq_refl) as [->|[? _]]; [reflexivity | discriminate]. }
    apply Nat.le_antisymm; [now apply kill_calls_bound|].
    rewrite run_app. cbn [run fold_left]. fold (run (step (run spawned pre) TimerFired) post).
    rewrite <- H1 at 1. apply kill_calls_run_mono.
  - intros Hp. exact (pending_step _ TimerFired Hinv Hp).
  - intros url Hp more.
    pose proof (tunnel_inv_run (events ++ more) _ tunnel_inv_spawned) as (_ & _ & _ & I4).
    apply (I4 url). rewrite run_app. now apply promise_settled_run.
  - intros t0 code. destruct (kill_calls_step t0 (Exited code)) as [H|(H & _)];
      [exact H | discriminate H].
Qed.

Lemma kill_only_on_timeout_witness :
  (runCloudFlaredTunnel true (sample_reads)).(promise) =
    Some (Some "https://foo-bar.trycloudflare.com") /\
  (runCloudFlaredTunnel true
     (sample_reads ++ [TimerFired; Exited 0])).(kill_calls) = 0%nat.
Proof.
  assert (H : (runCloudFlaredTunnel true (sample_reads)).(promise) =
              Some (Some "https://foo-bar.trycloudflare.com")) by reflexivity.
  split; [exact H|].
  exact (proj1 (proj2 (proj2 (proj2 (kill_only_on_timeout (sample_reads)))))
           _ H [TimerFired; Exited 0]).
Defined.

(** ** The access token *)

Lemma substring_from_zero_length (n : nat) (s : string) :
  (String.length (String.substring 0 n s) <= n)%nat.
Proof.
  revert s. induction n as [|n IH]; intros s.
  - destruct s; simpl; lia.
  - destruct s as [|c s]; simpl; [lia|]. specialize (IH s). lia.
Qed.

Lemma substring_from_zero_full (n : nat) (s : string) :
  (n <= String.length s)%nat -> String.length (String.substring 0 n s) = n.
Proof.
  revert s. induction n as [|n IH]; intros s.
  - destruct s; reflexivity.
  - destruct s as [|c s]; simpl; [lia|]. intros H. rewrite IH; lia.
Qed.

Lemma substring_from_zero_all (p : ascii -> bool) (n : nat) (s : string) :
  all_chars p s = true -> all_chars p (String.substring 0 n s) = true.
Proof.
  revert s. induction n as [|n IH]; intros s.
  - destruct s; reflexivity.
  - destruct s as [|c s]; simpl; [reflexivity|].
    intros H. apply andb_true_iff in H as [-> H]. now apply IH.
Qed.

Lemma radix36_digit_is_alphanumeric (s : string) :
  all_chars is_radix36_digit s = true -> all_chars is_alphanumeric s = true.
Proof.
  induction s as [|c s IH]; simpl; [reflexivity|].
  intros H. apply andb_true_iff in H as [Hc Hs]. rewrite (IH Hs), andb_true_r.
  unfold is_radix36_digit in Hc. unfold is_alphanumeric.
  apply orb_true_iff in Hc as [-> | ->]; [reflexivity | now rewrite orb_true_r].
Qed.

(** X24. What the generator does give: only letters and digits, five of
    them at most, and five when the rendering has five digits or more. *)
Lemma token_shape (random36 : string) :
  radix36_rendering random36 ->
  let token := JS.substring 2 7 random36 in
  all_chars is_alphanumeric token = true /\
  (String.length token <= 5)%nat /\
  ((7 <= String.length random36)%nat -> String.length token = 5%nat).
Proof.
  intros [->|(digits & -> & _ & Hd)]; cbv zeta.
  { split; [reflexivity|]. split; simpl; lia. }
  change (JS.substring 2 7 ("0." +:+ digits)) with (String.substring 0 5 digits).
  split; [|split].
  - apply substring_from_zero_all. now apply radix36_digit_is_alphanumeric.
  - apply substring_from_zero_length.
  - intros H. apply substring_from_zero_full. simpl in H. lia.
Qed.

(** C2, at the inputs where the code falls short of it: when
    [Math.random()] gives 0.5, printed "0.i" in base 36, the token is "i",
    one character long; when it gives 0, printed "0", the token is empty. *)
Theorem token_shorter_than_five :
  JS.Number_toString36 1 2 = "0.i" /\
  radix36_rendering (JS.Number_toString36 1 2) /\
  (exists cfg,
     startup sample_fs 8000 sample_path (JS.Number_toString36 1 2) = Serving cfg /\
     cfg.(urlPath) = "i" /\ (String.length cfg.(urlPath) < 5)%nat) /\
  JS.Number_toString36 0 1 = "0" /\
  (exists cfg,
     startup sample_fs 8000 sample_path (JS.Number_toString36 0 1) = Serving cfg /\
     cfg.(urlPath) = EmptyString /\ (String.length cfg.(urlPath) < 5)%nat).
Proof.
  split; [reflexivity|]. split.
  { right. exists "i". split; [reflexivity | split; [discriminate | reflexivity]]. }
  split.
  { eexists. split; [vm_compute; reflexivity|]. split; [reflexivity | simpl; lia]. }
  split; [reflexivity|].
  eexists. split; [vm_compute; reflexivity|]. split; [reflexivity | simpl; lia].
Qed.

(** * Further properties of the code *)

(** ** The ledger over whole runs *)

Lemma logRequest_keeps_keys (ip0 ua0 : string) (st : Ledger) :
  (forall k e, st.(clientMap) !! k = Some e ->
     client_key e.(ip) e.(ua) = k /\ 1 <= e.(count)) ->
  forall k e, (logRequest ip0 ua0 st).(clientMap) !! k = Some e ->
    client_key e.(ip) e.(ua) = k /\ 1 <= e.(count).
Proof.
  intros Hinv k e. unfold logRequest; cbn [clientMap].
  destruct (decide (client_key ip0 ua0 = k)) as [<-|Hne].
  - rewrite lookup_insert_eq. intros [= <-].
    destruct (clientMap st !! client_key ip0 ua0) as [e0|] eqn:He0; cbn [next_info ip ua count].
    + destruct (Hinv _ _ He0) as [Hk _]. split; [exact Hk | lia].
    + split; [reflexivity | lia].
  - rewrite lookup_insert_ne by exact Hne. apply Hinv.
Qed.

Lemma serve_lengths (cfg : Config) (reqs : list Request) (st : Ledger) :
  length (fst (serve cfg reqs st)) = length reqs /\
  length (console (snd (serve cfg reqs st))) = (length (console st) + length reqs)%nat.
Proof.
  revert st. induction reqs as [|req reqs IH]; intros st.
  - simpl. split; [reflexivity | lia].
  - pose proof (fetch_ledger cfg req st) as Hl. simpl serve.
    destruct (fetch cfg req st) as [r st1]. simpl in Hl. subst st1.
    destruct (IH (logRequest (client_ip req) (client_ua req) st)) as [IH1 IH2].
    destruct (serve cfg reqs _) as [rs st2]. simpl in *.
    split; [now rewrite IH1|]. rewrite IH2. unfold logRequest; simpl.
    rewrite length_app. simpl. lia.
Qed.

(** X2. After any run from start-up every record of the ledger sits under
    the key of the address and user agent it holds, with a count of at
    least one; the run has one response and one log line per request. *)
Theorem ledger_after_any_run (cfg : Config) (reqs : list Request) :
  let st := snd (serve cfg reqs empty_ledger) in
  (forall k e, st.(clientMap) !! k = Some e ->
     client_key e.(ip) e.(ua) = k /\ 1 <= e.(count)) /\
  length (fst (serve cfg reqs empty_ledger)) = length reqs /\
  length st.(console) = length reqs.
Proof.
  cbv zeta. split.
  - assert (H : forall st,
               (forall k e, st.(clientMap) !! k = Some e ->
                  client_key e.(ip) e.(ua) = k /\ 1 <= e.(count)) ->
               forall k e, (snd (serve cfg reqs st)).(clientMap) !! k = Some e ->
                  client_key e.(ip) e.(ua) = k /\ 1 <= e.(count)).
    { induction reqs as [|req reqs IH]; intros st Hst; [exact Hst|].
      rewrite serve_cons, fetch_ledger. apply IH.
      now apply logRequest_keeps_keys. }
    apply H. intros k e. unfold empty_ledger; cbn [clientMap].
    rewrite lookup_empty. discriminate.
  - destruct (serve_lengths cfg reqs empty_ledger) as [H1 H2]. split; [exact H1|].
    rewrite H2. reflexivity.
Qed.

(** ** The user agent in the log *)







(** X4. The answers of a run depend on the paths requested alone: neither
    the clients nor the counts of the ledger change them, so a link is
    answered the same however often and by whomever it is used. *)
Theorem answers_depend_on_paths_only
    (cfg : Config) (reqs1 reqs2 : list Request) (st1 st2 : Ledger)
    (Hpaths : map pathname reqs1 = map pathname reqs2) :
  fst (serve cfg reqs1 st1) = fst (serve cfg reqs2 st2).
Proof.
  revert reqs2 st1 st2 Hpaths.
  induction reqs1 as [|r1 reqs1 IH]; intros [|r2 reqs2] st1 st2 Hpaths;
    try discriminate Hpaths; [reflexivity|].
  injection Hpaths as Hp Hrest. simpl serve.
  assert (H1 : fst (fetch cfg r1 st1) = fst (fetch cfg r2 st2)).
  { unfold fetch. rewrite Hp.
    destruct (String.eqb _ _); [reflexivity|].
    destruct (String.eqb _ _); reflexivity. }
  destruct (fetch cfg r1 st1) as [a1 st1'], (fetch cfg r2 st2) as [a2 st2'].
  simpl in H1. subst a2.
  specialize (IH reqs2 st1' st2' Hrest).
  destruct (serve cfg reqs1 st1') as [rs1 ?], (serve cfg reqs2 st2') as [rs2 ?].
  simpl in *. now rewrite IH.
Qed.

Lemma answers_depend_on_paths_only_witness :
  map pathname sample_visit = map pathname [sample_info; sample_download; sample_stray] /\
  fst (serve sample_cfg sample_visit empty_ledger) =
  fst (serve sample_cfg [sample_info; sample_download; sample_stray]
         (snd (serve sample_cfg sample_visit empty_ledger))).
Proof.
  assert (H : map pathname sample_visit =
              map pathname [sample_info; sample_download; sample_stray]) by reflexivity.
  split; [exact H|].
  exact (answers_depend_on_paths_only sample_cfg _ _ _ _ H).
Defined.

(** ** The page, the sizes and the name *)

(** X5. The page served at /{token} links to /download/{token}, and that
    path is the one answered with the file: following the link of the page
    downloads the file. *)
Theorem page_link_downloads_the_file
    (cfg : Config) (req : Request) (st : Ledger)
    (Hpath : req.(pathname) = "/" +:+ cfg.(urlPath)) :
  exists html,
    (fst (fetch cfg req st)).(body) = Text html /\
    contains ("href=" +:+ JS.dq +:+ "/download/" +:+ cfg.(urlPath) +:+ JS.dq) html /\
    forall follow st',
      follow.(pathname) = "/download/" +:+ cfg.(urlPath) ->
      (fst (fetch cfg follow st')).(status) = 200 /\
      (fst (fetch cfg follow st')).(body) = BunFile cfg.(filePath).
Proof.
  rewrite (fetch_info _ _ _ Hpath). eexists. split; [reflexivity|]. split.
  - apply page_link.
  - intros follow st' Hf. rewrite (fetch_download _ _ _ Hf). now split.
Qed.

Lemma page_link_downloads_the_file_witness :
  sample_info.(pathname) = "/" +:+ sample_cfg.(urlPath) /\
  exists html,
    (fst (fetch sample_cfg sample_info empty_ledger)).(body) = Text html /\
    contains ("href=" +:+ JS.dq +:+ "/download/" +:+ sample_cfg.(urlPath) +:+ JS.dq) html /\
    forall follow st',
      follow.(pathname) = "/download/" +:+ sample_cfg.(urlPath) ->
      (fst (fetch sample_cfg follow st')).(status) = 200 /\
      (fst (fetch sample_cfg follow st')).(body) = BunFile sample_cfg.(filePath).
Proof.
  assert (H : sample_info.(pathname) = "/" +:+ sample_cfg.(urlPath)) by reflexivity.
  split; [exact H|].
  exact (page_link_downloads_the_file sample_cfg sample_info empty_ledger H).
Defined.

(** X7. Start-up takes any path that can be stat'ed, a directory too: the
    server is then set up for that path, under its base name, with the size
    of the directory entry, and the response the handler builds for a
    download refers to that path and gives that size, in decimal, as
    Content-Length. *)
Theorem startup_accepts_a_directory
    (fs : gmap string Node) (port0 size : N) (path random36 : string)
    (Hdir : fs !! path = Some (Directory size))
    (Hname : JS.is_empty path = false /\ path <> "help" /\ path <> "version") :
  exists cfg,
    startup fs port0 path random36 = Serving cfg /\
    cfg.(filePath) = path /\
    cfg.(fileName) = JS.basename path /\
    cfg.(fileSize) = size /\
    forall req st,
      req.(pathname) = "/download/" +:+ cfg.(urlPath) ->
      (fst (fetch cfg req st)).(body) = BunFile path /\
      exists value,
        header "Content-Length" (fst (fetch cfg req st)).(headers) = Some value /\
        value = NilZero.string_of_uint (N.to_uint size) /\
        option_map N.of_uint (NilZero.uint_of_string value) = Some size.
Proof.
  destruct Hname as (Hne & Hhelp & Hversion).
  unfold startup, statSync_size. rewrite Hne, Hdir.
  destruct (String.eqb_spec path "help") as [E|_]; [contradiction|].
  destruct (String.eqb_spec path "version") as [E|_]; [contradiction|].
  eexists. split; [reflexivity|]. split; [reflexivity|].
  split; [reflexivity|]. split; [reflexivity|].
  intros req st Hreq. rewrite (fetch_download _ _ _ Hreq).
  split; [reflexivity|]. eexists. split; [reflexivity|].
  split; [reflexivity | apply Number_toString_value].
Qed.

Lemma startup_accepts_a_directory_witness :
  sample_fs_with_dir !! sample_dir = Some (Directory 4096) /\
  exists cfg,
    startup sample_fs_with_dir 8000 sample_dir sample_random36 = Serving cfg /\
    cfg.(fileName) = "photos" /\
    cfg.(fileSize) = 4096 /\
    exists value,
      header "Content-Length"
        (fst (fetch cfg (mkRequest ("/download/" +:+ cfg.(urlPath)) None None)
                empty_ledger)).(headers) = Some value /\
      value = "4096".
Proof.
  assert (Hdir : sample_fs_with_dir !! sample_dir = Some (Directory 4096))
    by (vm_compute; reflexivity).
  split; [exact Hdir|].
  destruct (startup_accepts_a_directory sample_fs_with_dir 8000 4096 sample_dir
              sample_random36 Hdir) as (cfg & H1 & _ & H2 & H3 & H4).
  - split; [reflexivity | split; discriminate].
  - exists cfg. split; [exact H1|]. split; [rewrite H2; reflexivity|].
    split; [exact H3|].
    destruct (H4 (mkRequest ("/download/" +:+ cfg.(urlPath)) None None) empty_ledger eq_refl)
      as (_ & value & Hv & Hval & _).
    exists value. split; [exact Hv | exact Hval].
Defined.

(** The text 0.00 is printed for no hundredths at all only. *)
Lemma toFixed2_zero (num den : N) :
  JS.toFixed2 num den = "0.00" -> JS.toFixed2_hundredths num den = 0.
Proof.
  unfold JS.toFixed2. set (n := JS.toFixed2_hundredths num den). intros H.
  pose proof (Number_toString_value (n / 100)) as Hwhole.
  pose proof (two_digits_value (n mod 100)) as Hrest.
  rewrite mod_100_mod_10 in Hrest.
  assert (Hlen : String.length (JS.Number_toString (n / 100)) = 1%nat).
  { apply (f_equal String.length) in H. rewrite length_append in H. simpl in H. lia. }
  destruct (JS.Number_toString (n / 100)) as [|c [|c' r]]; try discriminate Hlen.
  simpl in H. injection H as -> Hd1 Hd2.
  rewrite Hd1, Hd2 in Hrest. simpl in Hwhole.
  specialize (Hrest ltac:(apply N.mod_lt; discriminate)). simpl in Hrest.
  injection Hwhole as Hwhole. injection Hrest as Hrest.
  rewrite (N.div_mod n 100) by discriminate. now rewrite <- Hwhole, <- Hrest.
Qed.

(** X8. Sizes up to 5242 bytes, the ones under half a hundredth of a
    mebibyte, are shown as 0.00, and no larger size is. *)
Theorem small_sizes_show_zero (size : N) :
  (size <= 5242 <-> JS.toFixed2_hundredths size (1024 * 1024) = 0) /\
  (size <= 5242 <-> JS.toFixed2 size (1024 * 1024) = "0.00").
Proof.
  change (1024 * 1024) with 1048576.
  assert (Hiff : size <= 5242 <-> JS.toFixed2_hundredths size 1048576 = 0).
  { unfold JS.toFixed2_hundredths. rewrite N.div_small_iff by discriminate. lia. }
  split; [exact Hiff|]. split.
  - intros H. unfold JS.toFixed2. now rewrite (proj1 Hiff H).
  - intros H. apply Hiff. now apply toFixed2_zero.
Qed.

Lemma small_sizes_show_zero_witness :
  JS.toFixed2 5242 (1024 * 1024) = "0.00" /\
  JS.toFixed2 5243 (1024 * 1024) = "0.01" /\
  ~ 5243 <= 5242.
Proof.
  split; [exact (proj1 (proj2 (small_sizes_show_zero 5242)) ltac:(lia))|].
  split; [reflexivity | lia].
Defined.

(** X9. A size of whole mebibytes is shown as that number of mebibytes
    with two zero decimals. *)
Theorem whole_mebibytes_are_exact (k : N) :
  JS.toFixed2 (k * 1048576) (1024 * 1024) = JS.Number_toString k +:+ ".00".
Proof.
  change (1024 * 1024) with 1048576. unfold JS.toFixed2.
  assert (Hn : JS.toFixed2_hundredths (k * 1048576) 1048576 = 100 * k).
  { unfold JS.toFixed2_hundredths.
    replace (200 * (k * 1048576) + 1048576) with (1048576 + (100 * k) * (2 * 1048576)) by lia.
    rewrite N.div_add by discriminate. reflexivity. }
  rewrite Hn.
  replace (100 * k / 100) with k by (rewrite N.mul_comm, N.div_mul; [reflexivity | discriminate]).
  replace ((100 * k) mod 100) with 0
    by (rewrite N.mul_comm, N.Div0.mod_mul; reflexivity).
  replace ((100 * k) mod 10) with 0.
  - reflexivity.
  - replace (100 * k) with ((10 * k) * 10) by lia. now rewrite N.Div0.mod_mul.
Qed.

(** X10. A larger file is never shown with a smaller size. *)
Theorem shown_size_is_monotone (size1 size2 : N) (Hle : size1 <= size2) :
  JS.toFixed2_hundredths size1 (1024 * 1024) <= JS.toFixed2_hundredths size2 (1024 * 1024).
Proof.
  unfold JS.toFixed2_hundredths. apply N.Div0.div_le_mono. lia.
Qed.

Lemma shown_size_is_monotone_witness :
  5000 <= 6000 /\
  JS.toFixed2_hundredths 5000 (1024 * 1024) <= JS.toFixed2_hundredths 6000 (1024 * 1024).
Proof.
  assert (H : 5000 <= 6000) by lia.
  split; [exact H | exact (shown_size_is_monotone 5000 6000 H)].
Defined.

(** X11. The name shown on the page and given in Content-Disposition is the
    last component of the path served: the path itself when it has no
    slash, and [name] for [dir/name] whatever the directory. *)
Theorem served_name_is_the_last_component
    (fs : gmap string Node) (port0 : N) (path dir name random36 : string) (cfg : Config)
    (Hstart : startup fs port0 path random36 = Serving cfg)
    (Hname : name <> EmptyString /\ all_chars not_slash name = true)
    (Hpath : path = name \/ path = dir +:+ "/" +:+ name) :
  cfg.(fileName) = name /\
  forall req st,
    req.(pathname) = "/download/" +:+ cfg.(urlPath) ->
    header "Content-Disposition" (fst (fetch cfg req st)).(headers) =
      Some ("attachment; filename=" +:+ JS.dq +:+ name +:+ JS.dq).
Proof.
  destruct Hname as [Hne Hns].
  destruct (startup_serving _ _ _ _ _ Hstart) as (_ & _ & Hfn & _).
  assert (H : cfg.(fileName) = name).
  { rewrite Hfn. destruct Hpath as [-> | ->].
    - unfold JS.basename. rewrite (basename_from_plain name _ _ Hns).
      destruct name; [contradiction | reflexivity].
    - now apply basename_from_dir. }
  split; [exact H|].
  intros req st Hreq. rewrite (fetch_download _ _ _ Hreq). simpl. now rewrite H.
Qed.

Lemma served_name_is_the_last_component_witness :
  startup sample_fs 8000 sample_path sample_random36 = Serving sample_cfg /\
  sample_cfg.(fileName) = "notes.txt".
Proof.
  assert (Hstart : startup sample_fs 8000 sample_path sample_random36 = Serving sample_cfg)
    by (vm_compute; reflexivity).
  split; [exact Hstart|].
  refine (proj1 (served_name_is_the_last_component sample_fs 8000 sample_path
                   "/home/ann" "notes.txt" sample_random36 sample_cfg Hstart _ _)).
  - split; [discriminate | reflexivity].
  - right. reflexivity.
Defined.

Lemma token_shape_witness :
  radix36_rendering sample_random36 /\
  all_chars is_alphanumeric (JS.substring 2 7 sample_random36) = true /\
  (String.length (JS.substring 2 7 sample_random36) <= 5)%nat.
Proof.
  assert (H : radix36_rendering sample_random36).
  { right. exists "k3x9q7w1lpf". split; [reflexivity | split; [discriminate | reflexivity]]. }
  split; [exact H|].
  destruct (token_shape sample_random36 H) as (Ha & Hl & _).
  split; [exact Ha | exact Hl].
Defined.

(** ** The command line *)

Section CommandLineFacts.

Variable isNaN_Number : string -> bool.

Local Abbreviation parse := (parse_loop isNaN_Number).

(** The loop, one argument at a time, by what the argument is taken for. *)
Lemma parse_loop_step (arg : string) (rest : list string) (c : Cli) :
  parse (arg :: rest) c =
  match classify arg with
  | KHelp => inl StopHelp
  | KPort =>
      match rest with
      | val :: rest' =>
          if JS.is_empty val || isNaN_Number val then inl StopInvalidPort
          else parse rest'
                 {| cli_port := Some val; cli_filePath := c.(cli_filePath);
                    cli_debug := c.(cli_debug); cli_autoTunnel := c.(cli_autoTunnel) |}
      | [] => inl StopInvalidPort
      end
  | KDebug =>
      parse rest {| cli_port := c.(cli_port); cli_filePath := c.(cli_filePath);
                    cli_debug := true; cli_autoTunnel := c.(cli_autoTunnel) |}
  | KTunnel =>
      parse rest {| cli_port := c.(cli_port); cli_filePath := c.(cli_filePath);
                    cli_debug := c.(cli_debug); cli_autoTunnel := true |}
  | KVersion => inl StopVersion
  | KPath =>
      parse rest {| cli_port := c.(cli_port); cli_filePath := arg;
                    cli_debug := c.(cli_debug); cli_autoTunnel := c.(cli_autoTunnel) |}
  end.
Proof.
  unfold classify. cbn [parse_loop].
  destruct (String.eqb arg "-h" || String.eqb arg "--help"); [reflexivity|].
  destruct (String.eqb arg "-p" || String.eqb arg "--port"); [reflexivity|].
  destruct (String.eqb arg "-d" || String.eqb arg "--debug"); [reflexivity|].
  destruct (String.eqb arg "-t" || String.eqb arg "--tunnel"); [reflexivity|].
  destruct (String.eqb arg "-v" || String.eqb arg "---version"); reflexivity.
Qed.

Lemma parse_loop_append_bounded (n : nat) :
  forall (xs ys : list string) (c c' : Cli),
    (length xs <= n)%nat ->
    parse xs c = inr c' -> parse (xs ++ ys) c = parse ys c'.
Proof.
  induction n as [|n IH]; intros xs ys c c' Hlen Hxs.
  - destruct xs; [|simpl in Hlen; lia]. simpl in Hxs. now injection Hxs as ->.
  - destruct xs as [|arg rest]; [simpl in Hxs; now injection Hxs as ->|].
    change ((arg :: rest) ++ ys) with (arg :: (rest ++ ys)).
    rewrite parse_loop_step in Hxs |- *. simpl in Hlen.
    destruct (classify arg); try discriminate Hxs;
      try (apply IH; [lia | exact Hxs]).
    destruct rest as [|val rest']; [discriminate Hxs|].
    change ((val :: rest') ++ ys) with (val :: (rest' ++ ys)). cbv beta iota.
    destruct (JS.is_empty val || isNaN_Number val) eqn:Hval; [discriminate Hxs|].
    apply IH; [simpl in Hlen; lia | exact Hxs].
Qed.

Lemma parse_loop_continues (xs ys : list string) (c c' : Cli) :
  parse xs c = inr c' -> parse (xs ++ ys) c = parse ys c'.
Proof.
  exact (parse_loop_append_bounded (length xs) xs ys c c' (Nat.le_refl _)).
Qed.

(** X12. Arguments are read left to right with no look-back: when a first
    part of the command line is read without stopping, the rest is read from
    the settings the first part left. *)
Theorem parse_loop_append (xs ys : list string) (c c' : Cli)
    (Hxs : parse xs c = inr c') :
  parse (xs ++ ys) c = parse ys c'.
Proof.
  exact (parse_loop_continues xs ys c c' Hxs).
Qed.

Lemma parse_loop_path_bounded (n : nat) :
  forall (xs : list string) (c c' : Cli),
    (length xs <= n)%nat ->
    parse xs c = inr c' ->
    c'.(cli_filePath) = c.(cli_filePath) \/
    (In c'.(cli_filePath) xs /\ is_path_arg c'.(cli_filePath) = true).
Proof.
  induction n as [|n IH]; intros xs c c' Hlen Hxs.
  - destruct xs; [|simpl in Hlen; lia]. simpl in Hxs. injection Hxs as ->. now left.
  - destruct xs as [|arg rest]; [simpl in Hxs; injection Hxs as ->; now left|].
    rewrite parse_loop_step in Hxs. simpl in Hlen.
    destruct (classify arg) eqn:Hk; try discriminate Hxs.
    + destruct rest as [|val rest']; [discriminate Hxs|].
      destruct (JS.is_empty val || isNaN_Number val); [discriminate Hxs|].
      destruct (IH rest' _ c' ltac:(simpl in Hlen; lia) Hxs) as [H|[H1 H2]].
      * left. exact H.
      * right. split; [right; right; exact H1 | exact H2].
    + destruct (IH rest _ c' ltac:(lia) Hxs) as [H|[H1 H2]].
      * left. exact H.
      * right. split; [right; exact H1 | exact H2].
    + destruct (IH rest _ c' ltac:(lia) Hxs) as [H|[H1 H2]].
      * left. exact H.
      * right. split; [right; exact H1 | exact H2].
    + destruct (IH rest _ c' ltac:(lia) Hxs) as [H|[H1 H2]].
      * right. cbn [cli_filePath] in H. rewrite H. split; [now left|].
        unfold is_path_arg. now rewrite Hk.
      * right. split; [right; exact H1 | exact H2].
Qed.

(** X13. A command line that is read through serves the last of its path
    arguments: the path is empty or an argument that is none of the
    options, and one more path argument at the end replaces it. *)
Theorem last_path_argument_is_served (args : list string) (cli : Cli)
    (Hargs : parse_args isNaN_Number args = inr cli) :
  (cli.(cli_filePath) = EmptyString \/
   (In cli.(cli_filePath) args /\ is_path_arg cli.(cli_filePath) = true)) /\
  forall f, is_path_arg f = true ->
    parse_args isNaN_Number (args ++ [f]) =
    inr {| cli_port := cli.(cli_port); cli_filePath := f;
           cli_debug := cli.(cli_debug); cli_autoTunnel := cli.(cli_autoTunnel) |}.
Proof.
  destruct args as [|a args]; [discriminate Hargs|].
  unfold parse_args in Hargs. split.
  - exact (parse_loop_path_bounded _ _ _ _ (Nat.le_refl _) Hargs).
  - intros f Hf. change ((a :: args) ++ [f]) with (a :: (args ++ [f])).
    unfold parse_args. change (a :: (args ++ [f])) with ((a :: args) ++ [f]).
    rewrite (parse_loop_continues _ [f] _ _ Hargs), parse_loop_step.
    unfold is_path_arg in Hf. destruct (classify f); try discriminate Hf. reflexivity.
Qed.

(** X14. The two switches may stand before or after a path argument or
    each other: exchanging a switch with such a neighbour changes nothing. *)
Theorem switch_commutes (a b : string) (rest : list string) (c : Cli)
    (Ha : is_switch a = true)
    (Hb : is_switch b = true \/ is_path_arg b = true) :
  parse (a :: b :: rest) c = parse (b :: a :: rest) c.
Proof.
  unfold is_switch, is_path_arg in Ha, Hb.
  destruct (classify a) eqn:Ka; try discriminate Ha;
    destruct (classify b) eqn:Kb;
    try (destruct Hb as [Hb|Hb]; discriminate Hb);
    rewrite (parse_loop_step a (b :: rest) c), Ka, (parse_loop_step b rest), Kb,
      (parse_loop_step b (a :: rest) c), Kb, (parse_loop_step a rest), Ka;
    reflexivity.
Qed.

(** X15. Switches alone name no file: the command line is read through
    with an empty path, and start-up then stops with exit code 1. *)
Theorem switches_alone_serve_nothing (args : list string)
    (Hne : args <> [])
    (Hargs : Forall (fun a => is_switch a = true) args) :
  exists cli,
    parse_args isNaN_Number args = inr cli /\
    cli.(cli_filePath) = EmptyString /\
    forall fs port0 random36,
      startup fs port0 cli.(cli_filePath) random36 = Exit 1.
Proof.
  assert (H : forall c, exists c',
             parse args c = inr c' /\ c'.(cli_filePath) = c.(cli_filePath)).
  { clear Hne. induction Hargs as [|a args Ha _ IH]; intros c.
    - exists c. now split.
    - rewrite parse_loop_step. unfold is_switch in Ha.
      destruct (classify a); try discriminate Ha.
      + destruct (IH {| cli_port := c.(cli_port); cli_filePath := c.(cli_filePath);
                        cli_debug := true; cli_autoTunnel := c.(cli_autoTunnel) |})
          as (c' & H1 & H2). exists c'. now split.
      + destruct (IH {| cli_port := c.(cli_port); cli_filePath := c.(cli_filePath);
                        cli_debug := c.(cli_debug); cli_autoTunnel := true |})
          as (c' & H1 & H2). exists c'. now split. }
  destruct (H cli_initial) as (cli & H1 & H2).
  exists cli. split; [|split].
  - destruct args; [contradiction | exact H1].
  - exact H2.
  - intros fs port0 random36. rewrite H2. reflexivity.
Qed.

(** X16. After a first part read without stopping, [-h] or [--help] stops
    the program with the help text and exit code 0, [-v] or [---version]
    with the version and exit code 0, and [-p] or [--port] stops it as an
    invalid port with exit code 1 when it is the last argument or its
    operand is empty or not a number; a valid operand is taken as the port
    and never read as an option or a path. *)
Theorem stopping_options (pre rest : list string) (c c' : Cli) (arg val : string)
    (Hpre : parse pre c = inr c') :
  (arg = "-h" \/ arg = "--help" ->
     exists s, parse (pre ++ arg :: rest) c = inl s /\ s = StopHelp /\ exit_code s = 0) /\
  (arg = "-v" \/ arg = "---version" ->
     exists s, parse (pre ++ arg :: rest) c = inl s /\ s = StopVersion /\ exit_code s = 0) /\
  (arg = "-p" \/ arg = "--port" ->
     (exists s, parse (pre ++ [arg]) c = inl s /\ s = StopInvalidPort /\ exit_code s = 1) /\
     (JS.is_empty val || isNaN_Number val = true ->
      exists s, parse (pre ++ arg :: val :: rest) c = inl s /\
                s = StopInvalidPort /\ exit_code s = 1) /\
     (JS.is_empty val || isNaN_Number val = false ->
      parse (pre ++ arg :: val :: rest) c =
      parse rest {| cli_port := Some val; cli_filePath := c'.(cli_filePath);
                    cli_debug := c'.(cli_debug);
                    cli_autoTunnel := c'.(cli_autoTunnel) |})).
Proof.
  split; [|split].
  - intros Hk. exists StopHelp. rewrite (parse_loop_continues _ _ _ _ Hpre).
    split; [|split; reflexivity]. now destruct Hk as [-> | ->].
  - intros Hk. exists StopVersion. rewrite (parse_loop_continues _ _ _ _ Hpre).
    split; [|split; reflexivity]. now destruct Hk as [-> | ->].
  - intros Hk. split; [|split].
    + exists StopInvalidPort. rewrite (parse_loop_continues _ _ _ _ Hpre).
      split; [|split; reflexivity]. now destruct Hk as [-> | ->].
    + intros Hv. exists StopInvalidPort. rewrite (parse_loop_continues _ _ _ _ Hpre).
      split; [|split; reflexivity].
      destruct Hk as [-> | ->]; cbn [parse_loop String.eqb Ascii.eqb Bool.eqb orb];
        now rewrite Hv.
    + intros Hv. rewrite (parse_loop_continues _ _ _ _ Hpre).
      destruct Hk as [-> | ->]; cbn [parse_loop String.eqb Ascii.eqb Bool.eqb orb];
        now rewrite Hv.
Qed.

End CommandLineFacts.

Lemma parse_loop_append_witness :
  parse_loop sample_isNaN ["--debug"; "-p"; "9000"] cli_initial =
    inr (mkCli (Some "9000") EmptyString true false) /\
  parse_loop sample_isNaN (["--debug"; "-p"; "9000"] ++ ["notes.txt"; "-t"]) cli_initial =
    inr (mkCli (Some "9000") "notes.txt" true true).
Proof.
  assert (H : parse_loop sample_isNaN ["--debug"; "-p"; "9000"] cli_initial =
              inr (mkCli (Some "9000") EmptyString true false)) by reflexivity.
  split; [exact H|].
  rewrite (parse_loop_append sample_isNaN _ ["notes.txt"; "-t"] _ _ H). reflexivity.
Defined.

Lemma last_path_argument_is_served_witness :
  parse_args sample_isNaN ["a.txt"; "-d"; "b.txt"] = inr (mkCli None "b.txt" true false) /\
  parse_args sample_isNaN (["a.txt"; "-d"; "b.txt"] ++ ["c.txt"]) =
    inr (mkCli None "c.txt" true false).
Proof.
  assert (H : parse_args sample_isNaN ["a.txt"; "-d"; "b.txt"] =
              inr (mkCli None "b.txt" true false)) by reflexivity.
  split; [exact H|].
  exact (proj2 (last_path_argument_is_served sample_isNaN _ _ H) "c.txt" eq_refl).
Defined.

Lemma switch_commutes_witness :
  is_switch "-t" = true /\ is_path_arg "notes.txt" = true /\
  parse_loop sample_isNaN ["-t"; "notes.txt"] cli_initial =
  parse_loop sample_isNaN ["notes.txt"; "-t"] cli_initial.
Proof.
  assert (Ha : is_switch "-t" = true) by reflexivity.
  assert (Hb : is_path_arg "notes.txt" = true) by reflexivity.
  split; [exact Ha | split; [exact Hb|]].
  exact (switch_commutes sample_isNaN "-t" "notes.txt" [] cli_initial Ha (or_intror Hb)).
Defined.

Lemma switches_alone_serve_nothing_witness :
  Forall (fun a => is_switch a = true) ["-d"; "--tunnel"] /\
  exists cli,
    parse_args sample_isNaN ["-d"; "--tunnel"] = inr cli /\
    cli.(cli_filePath) = EmptyString /\
    forall fs port0 random36,
      startup fs port0 cli.(cli_filePath) random36 = Exit 1.
Proof.
  assert (H : Forall (fun a => is_switch a = true) ["-d"; "--tunnel"])
    by (repeat constructor).
  split; [exact H|].
  apply (switches_alone_serve_nothing sample_isNaN ["-d"; "--tunnel"]);
    [discriminate | exact H].
Defined.

Lemma stopping_options_witness :
  parse_loop sample_isNaN ["notes.txt"] cli_initial =
    inr (mkCli None "notes.txt" false false) /\
  (exists s, parse_loop sample_isNaN (["notes.txt"] ++ ["--port"]) cli_initial = inl s /\
             s = StopInvalidPort /\ exit_code s = 1) /\
  (exists s, parse_loop sample_isNaN (["notes.txt"] ++ "--help" :: ["-p"]) cli_initial = inl s /\
             s = StopHelp /\ exit_code s = 0).
Proof.
  assert (H : parse_loop sample_isNaN ["notes.txt"] cli_initial =
              inr (mkCli None "notes.txt" false false)) by reflexivity.
  split; [exact H|]. split.
  - exact (proj1 (proj2 (proj2 (stopping_options sample_isNaN _ [] _ _ "--port"
                                  EmptyString H)) (or_intror eq_refl))).
  - exact (proj1 (stopping_options sample_isNaN _ ["-p"] _ _ "--help" EmptyString H)
             (or_intror eq_refl)).
Defined.

(** ** The tunnel: more of the state machine *)

Lemma output_grows (t : Tunnel) (e : Event) :
  exists more, (step t e).(output) = t.(output) +:+ more.
Proof.
  destruct t as [out found prom ro re tp ep kc errs].
  destruct e as [[|] chunk|[|]|[|]| |code]; step_cases;
    first [ now exists chunk | exists EmptyString; now rewrite append_nil_r ].
Qed.

Lemma resolved_url_step (t : Tunnel) (e : Event) :
  tunnel_inv t ->
  (forall u, t.(promise) = Some (Some u) -> is_tunnel_url u /\ contains u t.(output)) ->
  forall u, (step t e).(promise) = Some (Some u) ->
    is_tunnel_url u /\ contains u (step t e).(output).
Proof.
  intros Hinv HP u Hu.
  destruct (promise t) as [r|] eqn:Hp.
  - rewrite (promise_settled_step t e r Hp) in Hu. injection Hu as ->.
    destruct (HP u eq_refl) as [H1 H2]. split; [exact H1|].
    destruct (output_grows t e) as [more ->]. now apply contains_append_r.
  - pose proof (pending_step t e Hinv Hp) as Hs.
    destruct e as [from chunk|from|from| |code].
    + destruct (reading from t) eqn:Hr; [|congruence].
      rewrite Hs in Hu. rewrite (chunk_is_accumulated t from chunk Hr).
      destruct (find_url (output t +:+ chunk)) as [v|] eqn:Hf; [|discriminate Hu].
      injection Hu as ->. now apply find_url_sound.
    + congruence.
    + congruence.
    + destruct Hs as [Hs _]. congruence.
    + congruence.
Qed.

Lemma resolved_url_shape (spawn_ok : bool) (events : list Event) (url : string) :
  (runCloudFlaredTunnel spawn_ok events).(promise) = Some (Some url) ->
  spawn_ok = true /\ is_tunnel_url url /\
  contains url (runCloudFlaredTunnel spawn_ok events).(output).
Proof.
  intros Hurl.
  destruct spawn_ok; [|discriminate Hurl]. split; [reflexivity|].
  unfold runCloudFlaredTunnel in *. revert url Hurl.
  induction events as [|e events IH] using rev_ind; [discriminate|].
  rewrite run_app. cbn [run fold_left]. fold (run spawned events).
  apply resolved_url_step; [apply tunnel_inv_run, tunnel_inv_spawned | exact IH].
Qed.



Lemma reading_stays_off (from : Stream) (t : Tunnel) (e : Event) :
  reading from t = false -> reading from (step t e) = false.
Proof.
  destruct t as [out found prom ro re tp ep kc errs].
  destruct from; cbn [reading stdout_reading stderr_reading]; intros ->;
    destruct e as [[|] chunk|[|]|[|]| |code]; step_cases; reflexivity.
Qed.

Lemma reading_stays_off_run (from : Stream) (events : list Event) (t : Tunnel) :
  reading from t = false -> reading from (run t events) = false.
Proof.
  revert t. induction events as [|e events IH]; intros t H; [exact H|].
  apply IH. now apply reading_stays_off.
Qed.

Lemma chunk_ignored (from : Stream) (t : Tunnel) (chunk : string) :
  reading from t = false -> step t (Chunk from chunk) = t.
Proof. intros H. unfold step. now rewrite H. Qed.

(** X18. The reader that finds the URL returns: from then on its stream is
    read no more, whatever the process still writes to it, while the loop of
    the other stream is left as it was. *)
Theorem finder_stops_reading
    (pre more : list Event) (from : Stream) (chunk url : string)
    (Hpending : (run spawned pre).(promise) = None)
    (Hreading : reading from (run spawned pre) = true)
    (Hfound : find_url ((run spawned pre).(output) +:+ chunk) = Some url) :
  let t' := runCloudFlaredTunnel true (pre ++ Chunk from chunk :: more) in
  t'.(promise) = Some (Some url) /\
  reading from t' = false /\
  (forall late, step t' (Chunk from late) = t') /\
  reading (other_stream from) (step (run spawned pre) (Chunk from chunk)) =
  reading (other_stream from) (run spawned pre).
Proof.
  cbv zeta. unfold runCloudFlaredTunnel.
  rewrite run_app. cbn [run fold_left].
  fold (run (step (run spawned pre) (Chunk from chunk)) more).
  pose proof (tunnel_inv_run pre _ tunnel_inv_spawned) as Hinv.
  pose proof (pending_step _ (Chunk from chunk) Hinv Hpending) as Hs.
  cbv beta iota in Hs. rewrite Hreading, Hfound in Hs.
  destruct Hinv as (I1 & _). destruct (I1 Hpending) as (Hf & _).
  assert (Hoff : reading from (step (run spawned pre) (Chunk from chunk)) = false
                 /\ reading (other_stream from) (step (run spawned pre) (Chunk from chunk)) =
                    reading (other_stream from) (run spawned pre)).
  { destruct (run spawned pre) as [out found prom ro re tp ep kc errs].
    cbn [output urlFound promise] in *. subst found prom.
    destruct from; cbn [reading stdout_reading stderr_reading] in Hreading; subst;
      unfold step, reading, on_chunk, stop_reading, other_stream;
      cbn [output urlFound promise stdout_reading stderr_reading negb];
      rewrite Hfound; cbn [stdout_reading stderr_reading]; now split. }
  destruct Hoff as [Hoff Hother].
  pose proof (reading_stays_off_run from more _ Hoff) as Hoff'.
  split; [now apply promise_settled_run|]. split; [exact Hoff'|]. split; [|exact Hother].
  intros late. now apply chunk_ignored.
Qed.

Lemma finder_stops_reading_witness :
  (run spawned [Chunk Stdout "log "]).(promise) = None /\
  let t' := runCloudFlaredTunnel true
              ([Chunk Stdout "log "] ++
               Chunk Stderr "https://a.trycloudflare.com" :: [Chunk Stderr "more"]) in
  t'.(promise) = Some (Some "https://a.trycloudflare.com") /\
  reading Stderr t' = false.
Proof.
  assert (H : (run spawned [Chunk Stdout "log "]).(promise) = None) by reflexivity.
  split; [exact H|].
  destruct (finder_stops_reading [Chunk Stdout "log "] [Chunk Stderr "more"] Stderr
              "https://a.trycloudflare.com" "https://a.trycloudflare.com"
              H eq_refl eq_refl) as (H1 & H2 & _).
  split; [exact H1 | exact H2].
Defined.

Lemma quiet_step (t : Tunnel) (e : Event) :
  match e with TimerFired | Exited _ => False | _ => True end ->
  (step t e).(kill_calls) = t.(kill_calls) /\ (step t e).(errors) = t.(errors).
Proof.
  destruct t as [out found prom ro re tp ep kc errs].
  destruct e as [[|] chunk|[|]|[|]| |code]; intros H; try contradiction;
    step_cases; now split.
Qed.

Lemma reads_without_match (events : list Event) (t : Tunnel) :
  orderly t.(stdout_reading) t.(stderr_reading) events = true ->
  find_url (t.(output) +:+ text_read events) = None ->
  (run t events).(output) = t.(output) +:+ text_read events /\
  (run t events).(kill_calls) = t.(kill_calls) /\
  (run t events).(errors) = t.(errors).
Proof.
  revert t. induction events as [|e events IH]; intros t Horder Hnone.
  - simpl. now rewrite append_nil_r.
  - cbn [run fold_left]. fold (run (step t e) events).
    destruct e as [from chunk|from|from| |code]; cbn [text_read] in *;
      try discriminate Horder.
    + assert (Hr : reading from t = true /\
                   orderly t.(stdout_reading) t.(stderr_reading) events = true)
        by (destruct from; cbn [orderly reading] in *;
            now apply andb_true_iff in Horder).
      destruct Hr as [Hr Hrest].
      assert (Hfind : find_url (output t +:+ chunk) = None).
      { destruct (find_url (output t +:+ chunk)) as [u|] eqn:Hf; [|reflexivity].
        apply (find_url_append _ (text_read events)) in Hf.
        rewrite append_assoc in Hf. congruence. }
      destruct (chunk_without_match t from chunk Hr Hfind) as (H1 & H2 & _).
      destruct (quiet_step t (Chunk from chunk) I) as [Hk He].
      pose proof (chunk_is_accumulated t from chunk Hr) as Ho.
      destruct (IH (step t (Chunk from chunk))) as (IH1 & IH2 & IH3).
      * now rewrite H1, H2.
      * now rewrite Ho, append_assoc.
      * rewrite IH1, IH2, IH3, Ho, Hk, He, append_assoc. now repeat split.
    + assert (Hr : reading from t = true)
        by (destruct from; cbn [orderly reading] in *;
            now apply andb_true_iff in Horder).
      destruct (end_of_stream t from (Done from) (or_introl eq_refl) Hr)
        as (Ho & _ & H1 & H2).
      destruct (quiet_step t (Done from) I) as [Hk He].
      destruct (IH (step t (Done from))) as (IH1 & IH2 & IH3).
      * rewrite H1, H2. destruct from; cbn [orderly] in Horder;
          now apply andb_true_iff in Horder.
      * now rewrite Ho.
      * rewrite IH1, IH2, IH3, Ho, Hk, He. now repeat split.
    + assert (Hr : reading from t = true)
        by (destruct from; cbn [orderly reading] in *;
            now apply andb_true_iff in Horder).
      destruct (end_of_stream t from (ReadError from) (or_intror eq_refl) Hr)
        as (Ho & _ & H1 & H2).
      destruct (quiet_step t (ReadError from) I) as [Hk He].
      destruct (IH (step t (ReadError from))) as (IH1 & IH2 & IH3).
      * rewrite H1, H2. destruct from; cbn [orderly] in Horder;
          now apply andb_true_iff in Horder.
      * now rewrite Ho.
      * rewrite IH1, IH2, IH3, Ho, Hk, He. now repeat split.
Qed.

(** X19. While the text read holds no tunnel URL the call keeps waiting:
    the promise stays pending, the buffer is the chunks of both streams in
    the order they were read, nothing is killed and no error is printed. *)
Theorem no_url_keeps_waiting (events : list Event)
    (Horder : orderly true true events = true)
    (Hnone : find_url (text_read events) = None) :
  let t := runCloudFlaredTunnel true events in
  t.(promise) = None /\
  t.(output) = text_read events /\
  t.(kill_calls) = 0%nat /\
  t.(errors) = [].
Proof.
  cbv zeta. unfold runCloudFlaredTunnel. split.
  - rewrite (reads_as_one_text events spawned tunnel_inv_spawned);
      try reflexivity; [|exact Horder].
    change (output spawned +:+ text_read events) with (text_read events).
    now rewrite Hnone.
  - exact (reads_without_match events spawned Horder Hnone).
Qed.

Lemma no_url_keeps_waiting_witness :
  orderly true true [Chunk Stderr "INF https://foo-b"; Chunk Stdout "ar.trycloud";
                     Done Stdout] = true /\
  (runCloudFlaredTunnel true
     [Chunk Stderr "INF https://foo-b"; Chunk Stdout "ar.trycloud"; Done Stdout]).(promise)
  = None.
Proof.
  assert (H : orderly true true [Chunk Stderr "INF https://foo-b";
                                 Chunk Stdout "ar.trycloud"; Done Stdout] = true)
    by reflexivity.
  split; [exact H|].
  exact (proj1 (no_url_keeps_waiting _ H eq_refl)).
Defined.

Lemma find_url_none_before (s u : string) :
  find_url s = Some u ->
  exists pre post, s = pre +:+ u +:+ post /\ find_url pre = None.
Proof.
  induction s as [|c s IH]; simpl find_url.
  - destruct (match_here EmptyString) eqn:H; [|discriminate].
    apply match_here_spec in H as (lab & rest & H & _). discriminate H.
  - destruct (match_here (String c s)) as [v|] eqn:H.
    + intros [= ->]. apply match_here_spec in H as (lab & rest & Hs & -> & _).
      exists EmptyString, rest. split; [|reflexivity].
      rewrite Hs. now rewrite !append_assoc.
    + intros Hs. destruct (IH Hs) as (pre & post & -> & Hpre).
      exists (String c pre), post. split; [reflexivity|].
      simpl find_url. destruct (match_here (String c pre)) as [v|] eqn:Hm; [|exact Hpre].
      apply (match_here_append _ (u +:+ post)) in Hm.
      change (String c pre +:+ u +:+ post) with (String c (pre +:+ u +:+ post)) in Hm.
      congruence.
Qed.

(** X20. The match of the pattern in a text is its leftmost occurrence: the
    result is [u] exactly when the text is some [pre], then [u], a complete
    URL of the pattern's form, then anything, and no match lies in [pre]. *)
Theorem find_url_is_the_leftmost_match (s u : string) :
  find_url s = Some u <->
  exists pre post,
    s = pre +:+ u +:+ post /\ is_tunnel_url u /\ find_url pre = None.
Proof.
  split.
  - intros H. destruct (find_url_none_before s u H) as (pre & post & Hs & Hpre).
    exists pre, post. split; [exact Hs|]. split; [|exact Hpre].
    exact (proj1 (find_url_sound s u H)).
  - intros (pre & post & -> & Hu & Hpre). now apply find_url_first.
Qed.

Lemma errors_step (t : Tunnel) (e : Event) :
  tunnel_inv t ->
  (t.(promise) <> Some None -> t.(errors) = []) ->
  (step t e).(promise) <> Some None -> (step t e).(errors) = [].
Proof.
  unfold tunnel_inv.
  destruct t as [out found prom ro re tp ep kc errs];
    cbn [output urlFound promise stdout_reading stderr_reading
         timer_pending exit_pending kill_calls errors].
  intros (I1 & _ & _ & I4) HE.
  assert (I4' : match prom with
                | Some (Some _) => found = true
                | _ => True
                end)
    by (destruct prom as [[u|]|]; [exact (proj1 (I4 u eq_refl)) | exact I | exact I]).
  clear I4.
  destruct found, prom as [[u0|]|];
    destruct e as [[|] chunk|[|]|[|]| |code]; step_cases;
    intuition (try discriminate; try congruence).
Qed.

(** X21. An error line is printed only in a call that ends with [null]: a
    call without one has printed none, and once the promise holds a URL no
    later event, the exit or the timer, prints one. *)
Theorem errors_only_with_null (events : list Event) :
  let t := runCloudFlaredTunnel true events in
  (t.(promise) <> Some None -> t.(errors) = []) /\
  (forall url, t.(promise) = Some (Some url) ->
     forall more, (runCloudFlaredTunnel true (events ++ more)).(errors) = []).
Proof.
  cbv zeta. unfold runCloudFlaredTunnel.
  assert (H : forall evs, (run spawned evs).(promise) <> Some None ->
                          (run spawned evs).(errors) = []).
  { intros evs. induction evs as [|e evs IH] using rev_ind; [reflexivity|].
    rewrite run_app. cbn [run fold_left]. fold (run spawned evs).
    apply errors_step; [apply tunnel_inv_run, tunnel_inv_spawned | exact IH]. }
  split; [apply H|].
  intros url Hurl more. apply H.
  rewrite run_app, (promise_settled_run more _ _ Hurl). discriminate.
Qed.

Lemma errors_only_with_null_witness :
  (runCloudFlaredTunnel true sample_reads).(promise) =
    Some (Some "https://foo-bar.trycloudflare.com") /\
  (runCloudFlaredTunnel true (sample_reads ++ [Exited 1; TimerFired])).(errors) = [].
Proof.
  assert (H : (runCloudFlaredTunnel true sample_reads).(promise) =
              Some (Some "https://foo-bar.trycloudflare.com")) by reflexivity.
  split; [exact H|].
  exact (proj2 (errors_only_with_null sample_reads) _ H [Exited 1; TimerFired]).
Defined.

(** ** Tunnel onboarding *)

Lemma lower_char_y (c : ascii) :
  Ascii.eqb (lower_char c) "y" = true <-> c = "y"%char \/ c = "Y"%char.
Proof.
  destruct c as [[] [] [] [] [] [] [] []];
    (split; [ intros H; first [ discriminate H | now left | now right ]
            | intros [H|H]; first [ discriminate H | reflexivity ] ]).
Qed.

(** X22. The prompt is taken as a yes exactly when the line typed starts
    with y or Y; the line is not trimmed, so an empty line and a line that
    starts with a space are a no. *)
Theorem prompt_answers (answer : string) :
  askCloudFlareTunnel answer = true <->
  exists rest, answer = String "y" rest \/ answer = String "Y" rest.
Proof.
  unfold askCloudFlareTunnel, startsWith.
  destruct answer as [|c rest]; cbn [toLowerCase strip_prefix].
  - split; [discriminate | intros (rest & [H|H]); discriminate H].
  - rewrite Ascii.eqb_sym. destruct (Ascii.eqb (lower_char c) "y") eqn:Hc.
    + apply lower_char_y in Hc. split; [intros _ | reflexivity].
      exists rest. destruct Hc as [-> | ->]; [now left | now right].
    + split; [discriminate|]. intros (rest' & [H|H]); injection H as -> _;
        discriminate Hc.
Qed.

(** X23. When the onboarding ends with a link, the link printed is the
    tunnel URL found followed by a slash and the token, and its path is the
    one answered with the page; the QR code is drawn for the tunnel URL
    alone, whose path, the bare slash, is answered with 404 unless the
    token is empty. *)
Theorem shared_link_and_qr
    (cfg : Config) (autoTunnel : bool) (answer : string) (probe : Probe)
    (spawn_ok : bool) (events : list Event) (link qr : string)
    (Hshared : setupCloudFlareTunnel cfg.(urlPath) autoTunnel answer probe
                 spawn_ok events = Shared link qr) :
  is_tunnel_url qr /\
  link = qr +:+ "/" +:+ cfg.(urlPath) /\
  checkCloudFlaredInstalled probe = true /\
  (forall req st, req.(pathname) = "/" +:+ cfg.(urlPath) ->
     fst (fetch cfg req st) = info_response cfg) /\
  (cfg.(urlPath) <> EmptyString ->
   forall req st, req.(pathname) = "/" ->
     (fst (fetch cfg req st)).(status) = 404).
Proof.
  unfold setupCloudFlareTunnel in Hshared.
  destruct (negb (if autoTunnel then true else askCloudFlareTunnel answer));
    [discriminate Hshared|].
  destruct (checkCloudFlaredInstalled probe); [|discriminate Hshared].
  cbn [negb] in Hshared.
  destruct (promise (runCloudFlaredTunnel spawn_ok events)) as [[url|]|] eqn:Hp;
    try discriminate Hshared.
  destruct (JS.is_empty url); [discriminate Hshared|].
  injection Hshared as <- <-.
  destruct (resolved_url_shape spawn_ok events url Hp) as (_ & Hu & _).
  split; [exact Hu|]. split; [reflexivity|]. split; [reflexivity|]. split.
  - intros req st Hreq. now apply fetch_info.
  - intros Htoken req st Hreq. rewrite fetch_elsewhere; [reflexivity | |].
    + rewrite Hreq. discriminate.
    + rewrite Hreq. intros H. injection H as H. apply Htoken. now rewrite <- H.
Qed.

Lemma shared_link_and_qr_witness :
  setupCloudFlareTunnel sample_cfg.(urlPath) true EmptyString (ProbeExited 0) true
    sample_reads =
  Shared "https://foo-bar.trycloudflare.com/k3x9q" "https://foo-bar.trycloudflare.com" /\
  is_tunnel_url "https://foo-bar.trycloudflare.com".
Proof.
  assert (H : setupCloudFlareTunnel sample_cfg.(urlPath) true EmptyString (ProbeExited 0)
                true sample_reads =
              Shared "https://foo-bar.trycloudflare.com/k3x9q"
                     "https://foo-bar.trycloudflare.com") by reflexivity.
  split; [exact H|].
  exact (proj1 (shared_link_and_qr sample_cfg true EmptyString (ProbeExited 0) true
                  sample_reads _ _ H)).
Defined.
